(** * gopi-sysfs: the GPIO port lifecycle and its value streams

    A shallow embedding of [gport] and its methods (Enable, Reset, SetMode,
    IsOutput, Value, SetValue, SetValues, Values) over an explicit world:
    the sysfs control files, the clock, the channels, the goroutines that
    were started, and the mutable [resetters] field of the port.

    Conventions.
    - Durations and instants are nanoseconds in [Z], as [time.Duration].
    - A method holds the port mutex from its first to its last statement
      ([defer p.unlock(p.lock())]); a method is therefore one atomic
      transition of the world and the mutex itself is not represented.
    - [info(...)] calls only feed the diagnostics hook and are left out.
    - File operations take no time; the clock moves only when somebody
      sleeps.  What the kernel does to the control files meanwhile is the
      [script] of the world: dated filesystem operations, applied when the
      clock passes their date.
    - The world follows one port: [resetters] is the field of that port.
    - The [log] of the world records, in the order in which they happen,
      the writes of the file helper, the calls of hooks, the emptying of
      the registry and the starts of goroutines. *)

From Stdlib Require Import Ascii.
From stdpp Require Import base gmap strings list pretty.

Open Scope Z_scope.

(** ** Errors *)

Inductive errno := EPERM | ENOENT | EIO | EACCES | EBUSY | EINVAL | EROFS.

(** The [error] values the package hands out, by where they are made:
    - [NotEnabled port]: checkEnabled, "GPIO %v is not enabled";
    - [InvalidMode]: the default case of SetMode, "GPIOMode %v does not exist";
    - [NotWritable sport fname]: the readiness deadline of Enable,
      "Timed out enabling GPIO %v - %v not yet writable";
    - [Timeout path]: the deadline of the file-condition waiter;
    - [PathError path e]: the *os.PathError of a file helper. *)
Inductive error :=
| NotEnabled (port : Z)
| InvalidMode
| NotWritable (sport fname : string)
| Timeout (path : string)
| PathError (path : string) (e : errno).

(** [os.IsPermission]: true for EACCES and EPERM under a path error. *)
Definition os_IsPermission (e : error) : bool :=
  match e with
  | PathError _ EACCES | PathError _ EPERM => true
  | _ => false
  end.

(** ** The world *)

(** A control file (or directory): what it holds, what a write of a given
    text answers, what a read answers. *)
Record fnode := Fnode {
  data : string;
  wr : string → option errno;
  rd : option errno
}.

Definition plain (d : string) : fnode := Fnode d (λ _, None) None.

Inductive fsop :=
| FPut (path : string) (n : fnode)
| FDel (path : string).

Inductive msg :=
| MErr (e : option error)
| MBool (b : bool)
| MEvent (Value : bool) (Timestamp : Z).

Record chan := Chan {
  buf : list msg;
  cap : nat;
  closed : bool
}.

(** The closures stored in [resetters]. *)
Inductive hook :=
| CloseChan (killer : nat)    (* SetValues: func() { close(killer) } *)
| StopMonitor (kill : nat).   (* the cleaner buildMonitor hands back *)

Record gport := Gport {
  port : Z;
  sport : string;
  folder : string;
  value : string;
  direction : string;
  edge : string;
  export : string;
  unexport : string
}.

(** Goroutines.  A goroutine that returned leaves [Exited] in its slot, so
    slots never move. *)
Inductive task :=
| Poller (ch : nat) (path : string) (want : bool) (deadline : Z)
| Setter (p : gport) (inp killer errch : nat)
| SetterSend (errch : nat) (e : error)   (* parked on [errch <- err] *)
| Monitor (file : string) (out kill : nat) (last : string)
| Exited.

Inductive event :=
| EvWrite (path text : string)   (* writeFile was called *)
| EvHook (h : hook)              (* a resetter was called *)
| EvClear                        (* [p.resetters = nil] *)
| EvGo (slot : nat).             (* a goroutine was started *)

Record world := World {
  now : Z;
  files : gmap string fnode;
  script : list (Z * fsop);
  creat : string → option errno;   (* what creating an absent path answers *)
  chans : list chan;
  tasks : list task;
  resetters : list hook;           (* p.resetters *)
  log : list event
}.

Definition with_clock (t : Z) (fs : gmap string fnode) (sc : list (Z * fsop))
    (w : world) : world :=
  World t fs sc (creat w) (chans w) (tasks w) (resetters w) (log w).
Definition with_files (fs : gmap string fnode) (w : world) : world :=
  World (now w) fs (script w) (creat w) (chans w) (tasks w) (resetters w) (log w).
Definition with_chans (cs : list chan) (w : world) : world :=
  World (now w) (files w) (script w) (creat w) cs (tasks w) (resetters w) (log w).
Definition with_tasks (ts : list task) (w : world) : world :=
  World (now w) (files w) (script w) (creat w) (chans w) ts (resetters w) (log w).
Definition with_resetters (rs : list hook) (w : world) : world :=
  World (now w) (files w) (script w) (creat w) (chans w) (tasks w) rs (log w).
Definition with_log (l : list event) (w : world) : world :=
  World (now w) (files w) (script w) (creat w) (chans w) (tasks w) (resetters w) l.

(** ** Computations: state, panics, and loops that may run out of turns *)

Inductive outcome (A : Type) : Type :=
| Done (a : A) (w : world)
| Panic (why : string) (w : world)
| Starved.
Arguments Done {A} a w.
Arguments Panic {A} why w.
Arguments Starved {A}.

Definition M (A : Type) : Type := world → outcome A.

#[global] Instance M_ret : MRet M := λ A a w, Done a w.
#[global] Instance M_bind : MBind M := λ A B f m w,
  match m w with
  | Done a w' => f a w'
  | Panic why w' => Panic why w'
  | Starved => Starved
  end.

Definition get {A} (f : world → A) : M A := λ w, Done (f w) w.
Definition modify (f : world → world) : M unit := λ w, Done tt (f w).
Definition panic {A} (why : string) : M A := λ w, Panic why w.
Definition starve {A} : M A := λ _, Starved.

(** What a computation answered, and the world it left. *)
Definition answer {A} (o : outcome A) : option A :=
  if o is Done a _ then Some a else None.
Definition world_of {A} (o : outcome A) : option world :=
  match o with
  | Done _ w | Panic _ w => Some w
  | Starved => None
  end.
Definition crash {A} (o : outcome A) : option string :=
  if o is Panic why _ then Some why else None.

Definition emit (e : event) : M unit := modify (λ w, with_log (log w ++ [e]) w).
Definition time_Now : M Z := get now.

(** [for _, x := range xs { f(x) }] *)
Fixpoint range {A} (xs : list A) (f : A → M unit) : M unit :=
  match xs with
  | [] => mret tt
  | x :: xs' => _ ← f x; range xs' f
  end.

(** [for _, x := range xs { if err := f(x); err != nil { return err } }] *)
Fixpoint range_err {A} (xs : list A) (f : A → M (option error)) : M (option error) :=
  match xs with
  | [] => mret None
  | x :: xs' => err ← f x; if err is Some e then mret (Some e) else range_err xs' f
  end.

(** ** Channels *)

Definition make_chan (n : nat) : M nat := λ w,
  Done (length (chans w)) (with_chans (chans w ++ [Chan [] n false]) w).

(** [close(c)]: panics on a closed channel and on a channel that is not there. *)
Definition close (k : nat) : M unit := λ w,
  match chans w !! k with
  | None => Panic "close of nil channel" w
  | Some c =>
      if closed c then Panic "close of closed channel" w
      else Done tt (with_chans (<[k := Chan (buf c) (cap c) true]> (chans w)) w)
  end.

(** A non-blocking attempt at [c <- m]: [true] when the message went in,
    [false] when the sender would park. *)
Definition try_send (k : nat) (m : msg) : M bool := λ w,
  match chans w !! k with
  | None => Done false w
  | Some c =>
      if closed c then Panic "send on closed channel" w
      else if (length (buf c) <? cap c)%nat
           then Done true (with_chans (<[k := Chan (buf c ++ [m]) (cap c) false]> (chans w)) w)
           else Done false w
  end.

(** Would [<-c] return at once? *)
Definition recv_ready (k : nat) (w : world) : bool :=
  match chans w !! k with
  | None => false
  | Some c => match buf c with [] => closed c | _ :: _ => true end
  end.

(** A non-blocking attempt at [v, ok := <-c]: [None] when the receiver would
    park, [Some None] for [ok = false], [Some (Some m)] for a message. *)
Definition try_recv (k : nat) : M (option (option msg)) := λ w,
  match chans w !! k with
  | None => Done None w
  | Some c =>
      match buf c with
      | m :: rest =>
          Done (Some (Some m)) (with_chans (<[k := Chan rest (cap c) (closed c)]> (chans w)) w)
      | [] => if closed c then Done (Some None) w else Done None w
      end
  end.

Definition go (t : task) : M nat := λ w,
  let slot := length (tasks w) in
  Done slot (with_log (log w ++ [EvGo slot]) (with_tasks (tasks w ++ [t]) w)).

Definition exit (slot : nat) : M unit :=
  modify (λ w, with_tasks (<[slot := Exited]> (tasks w)) w).

Definition become (slot : nat) (t : task) : M unit :=
  modify (λ w, with_tasks (<[slot := t]> (tasks w)) w).

(** ** The clock and the kernel's script *)

Definition apply_op (fs : gmap string fnode) (op : fsop) : gmap string fnode :=
  match op with
  | FPut path n => <[path := n]> fs
  | FDel path => delete path fs
  end.

Definition due (t : Z) (e : Z * fsop) : bool := fst e <=? t.

Definition sleep_for (d : Z) (w : world) : world :=
  let t := now w + d in
  with_clock t
    (foldl apply_op (files w) (snd <$> List.filter (due t) (script w)))
    (List.filter (λ e, negb (due t e)) (script w))
    w.

Definition sleep (d : Z) : M unit := modify (sleep_for d).

(** ** File helpers *)

(** Modelled from the spec: [checkFile], the plain synchronous existence
    test of the file helpers (TestCheck). *)
Definition checkFile (name : string) (w : world) : bool :=
  bool_decide (is_Some (files w !! name)).

(** Modelled from the spec: [writeFile], the plain synchronous write helper.
    It creates an absent file when the system allows it (TestCheck), and a
    following read gives the text back (TestWriteReadFile). *)
Definition writeFile (name text : string) : M (option error) :=
  _ ← emit (EvWrite name text);
  ((λ w,
    match files w !! name with
    | Some n =>
        match wr n text with
        | None => Done None (with_files (<[name := Fnode text (wr n) (rd n)]> (files w)) w)
        | Some e => Done (Some (PathError name e)) w
        end
    | None =>
        match creat w name with
        | None => Done None (with_files (<[name := plain text]> (files w)) w)
        | Some e => Done (Some (PathError name e)) w
        end
    end) : M (option error)).

(** Modelled from the spec: [readFile], the plain synchronous read helper. *)
Definition readFile (name : string) : M (string * option error) := λ w,
  match files w !! name with
  | Some n =>
      match rd n with
      | None => Done (data n, None) w
      | Some e => Done (""%string, Some (PathError name e)) w
      end
  | None => Done (""%string, Some (PathError name ENOENT)) w
  end.

(** ** Constants of the package *)

Definition GPIOInput : Z := 0.
Definition GPIOOutput : Z := 1.
Definition GPIOOutputLow : Z := 2.
Definition GPIOOutputHigh : Z := 3.

Definition direction_in : string := "in".
Definition direction_out : string := "out".
Definition direction_outlow : string := "low".
Definition direction_outhi : string := "high".

Definition second : Z := 1000000000.
Definition timelimit : Z := second * 2.

Definition low : string := "0".
Definition high : string := "1".

Definition as_err (m : msg) : option error := if m is MErr e then e else None.
Definition as_bool (m : msg) : bool := if m is MBool b then b else false.

(** What [awaitFileCreate] and [awaitFileRemove] hand back: the channel, and
    the slot of the goroutine that will answer on it, if one was started. *)
Record handle := Handle {
  hchan : nat;
  hslot : option nat
}.

(** ** gport: construction *)

(** [filepath.Join] of clean components. *)
Definition filepath_Join (a b : string) : string := a +:+ "/" +:+ b.

Definition newGPIO (gpiodir : string) (port : Z) : gport :=
  let sport := pretty port in
  let folder := filepath_Join gpiodir ("gpio" +:+ sport) in
  Gport port sport folder
    (filepath_Join folder "value")
    (filepath_Join folder "direction")
    (filepath_Join folder "edge")
    (filepath_Join gpiodir "export")
    (filepath_Join gpiodir "unexport").

(** ** The earlier version of the port (gpio.go)

    gpio.go holds an earlier, simpler version of the same type: no
    [resetters], no readiness loop.  Its reading of the direction file is
    embedded here, next to the later one. *)
Module Simple.

Definition readDirection (p : gport) : M (string * option error) :=
  readFile (direction p).

Definition checkEnabled (p : gport) : M (option error) :=
  there ← get (checkFile (folder p));
  if there : bool then mret None else mret (Some (NotEnabled (port p))).

Definition IsOutput (p : gport) : M (bool * option error) :=
  err ← checkEnabled p;
  if err is Some e then mret (false, Some e) else
  '(d, err) ← readDirection p;
  if err is Some e then mret (false, Some e) else
  mret (negb (String.eqb d "in"), None).

Definition writeDirection (p : gport) (d : string) : M (option error) :=
  writeFile (direction p) d.
Definition writeValue (p : gport) (v : string) : M (option error) :=
  writeFile (value p) v.
Definition readValue (p : gport) : M (string * option error) := readFile (value p).

(** gpio.go allows one second where the later version allows two. *)
Definition timelimit : Z := second.

Definition SetMode (p : gport) (mode : Z) : M (option error) :=
  err ← checkEnabled p;
  if err is Some e then mret (Some e) else
  if mode =? GPIOInput then writeDirection p direction_in
  else if mode =? GPIOOutput then writeDirection p direction_out
  else if mode =? GPIOOutputHigh then writeDirection p direction_outhi
  else if mode =? GPIOOutputLow then writeDirection p direction_outlow
  else mret (Some InvalidMode).

Definition Value (p : gport) : M (bool * option error) :=
  err ← checkEnabled p;
  if err is Some e then mret (false, Some e) else
  '(d, err) ← readValue p;
  if err is Some e then mret (false, Some e) else
  mret (String.eqb d "1", None).

Definition SetValue (p : gport) (v : bool) : M (option error) :=
  err ← checkEnabled p;
  if err is Some e then mret (Some e) else
  writeValue p (if v then high else low).

(** The stub: [return nil, nil]. *)
Definition Values (p : gport) : M (option nat * option error) := mret (None, None).

End Simple.

(** ** Sample worlds

    Line 17 under /sys/class/gpio, with control files that behave as the
    kernel's do: a text the file does not know is refused with EINVAL, a
    file whose group has not been fixed yet refuses every write with
    EACCES. *)
Module Sample.

Definition ms : Z := 1000000.
Definition tick : Z := 20 * ms.

Definition p17 : gport := newGPIO "/sys/class/gpio" 17.

Definition sysnode (d : string) (accepts : list string) : fnode :=
  Fnode d (λ t, if bool_decide (t ∈ accepts) then None else Some EINVAL) None.
Definition locked (d : string) : fnode := Fnode d (λ _, Some EACCES) None.

Definition dir_node (d : string) : fnode := sysnode d ["in"; "out"; "low"; "high"].
Definition edge_node : fnode := sysnode "none" ["none"; "rising"; "falling"; "both"].
Definition value_node (d : string) : fnode := sysnode d ["0"; "1"].

Definition control : gmap string fnode :=
  <[export p17 := plain ""]> (<[unexport p17 := plain ""]> ∅).

Definition no_creat : string → option errno := λ _, Some ENOENT.

(** The line is free; 30ms after the start the kernel makes the line
    directory, and udev opens the control files a little later. *)
Definition disabled : world :=
  World 0 control
    [(30 * ms, FPut (folder p17) (plain ""));
     (30 * ms, FPut (direction p17) (locked "in"));
     (30 * ms, FPut (edge p17) (locked "none"));
     (30 * ms, FPut (value p17) (value_node "0"));
     (70 * ms, FPut (direction p17) (dir_node "in"));
     (90 * ms, FPut (edge p17) edge_node)]
    no_creat [] [] [] [].

Definition claimed_files (d : fnode) : gmap string fnode :=
  <[folder p17 := plain ""]>
    (<[direction p17 := d]>
       (<[edge p17 := edge_node]>
          (<[value p17 := value_node "0"]> control))).

(** The line is claimed and its control files are open; nothing is
    scheduled.  One channel exists: a closed, drained input stream. *)
Definition enabled : world :=
  World 0 (claimed_files (dir_node "in")) [] no_creat [Chan [] 0 true] [] [] [].

(** As [enabled], with three values queued on the input stream. *)
Definition enabled_queue : world :=
  World 0 (claimed_files (dir_node "in")) [] no_creat
    [Chan [MBool true; MBool false; MBool true] 3 false] [] [] [].

(** As [enabled], but the direction file holds text the kernel never writes. *)
Definition enabled_odd : world :=
  World 0 (claimed_files (dir_node "sideways")) [] no_creat [] [] [] [].

(** The line is claimed, the direction file still refuses every write with
    a permissions error. *)
Definition enabled_locked : world :=
  World 0 (claimed_files (locked "in")) [] no_creat [] [] [] [].

(** The line is claimed, and the kernel drops the directory 50ms from now. *)
Definition enabled_leaving : world :=
  World 0 (claimed_files (dir_node "in"))
    [(50 * ms, FDel (folder p17))] no_creat [Chan [] 0 true] [] [] [].

(** As [enabled_queue], on a line configured as input: the value file
    refuses every write with "operation not permitted". *)
Definition enabled_input_queue : world :=
  World 0 (<[value p17 := Fnode "0" (λ _, Some EPERM) None]> (claimed_files (dir_node "in")))
    [] no_creat [Chan [MBool true; MBool false; MBool true] 3 false] [] [] [].

(** [enabled_queue] after SetValues on channel 0: error channel 1, killer
    channel 2, the goroutine in slot 0 and its hook in the registry. *)
Definition streaming : world :=
  World 0 (claimed_files (dir_node "in")) [] no_creat
    [Chan [MBool true; MBool false; MBool true] 3 false;
     Chan [] 1 false; Chan [] 1 false]
    [Setter p17 0 2 1] [CloseChan 2] [EvGo 0].

(** [streaming] after the hook was called: the killer channel is closed. *)
Definition cancelled : world :=
  World 0 (claimed_files (dir_node "in")) [] no_creat
    [Chan [MBool true; MBool false; MBool true] 3 false;
     Chan [] 1 false; Chan [] 1 true]
    [Setter p17 0 2 1] [] [EvGo 0].

(** [streaming] after somebody else released the line: no directory. *)
Definition released : world :=
  World 0 control [] no_creat
    [Chan [MBool true; MBool false; MBool true] 3 false;
     Chan [] 1 false; Chan [] 1 false]
    [Setter p17 0 2 1] [CloseChan 2] [EvGo 0].

Definition p27 : gport := newGPIO "/sys/class/gpio" 27.

(** As [disabled], but udev never opens the control files. *)
Definition disabled_stuck : world :=
  World 0 control
    [(30 * ms, FPut (folder p17) (plain ""));
     (30 * ms, FPut (direction p17) (locked "in"));
     (30 * ms, FPut (edge p17) (locked "none"))]
    no_creat [] [] [] [].

End Sample.

Section Port.

(** [pollInterval] is a constant of the file helpers; the development
    holds for every value of it, and the facts for every positive one. *)
Variable pollInterval : Z.

(** ** The file-condition waiter *)

Definition resolve (ch : nat) (e : option error) : M unit :=
  _ ← try_send ch (MErr e); close ch.

(** Modelled from the spec: [awaitFileCreate] returns at once with a
    single-shot handle and always starts the background poll, also when the
    file is already there. *)
Definition awaitFileCreate (name : string) (timeout : Z) : M (handle * option error) :=
  ch ← make_chan 1;
  t ← time_Now;
  slot ← go (Poller ch name true (t + timeout));
  mret (Handle ch (Some slot), None).

(** Modelled from the spec: [awaitFileRemove] resolves the handle on the spot
    when the file is already absent and starts nothing; otherwise it starts
    the background poll. *)
Definition awaitFileRemove (name : string) (timeout : Z) : M (handle * option error) :=
  ch ← make_chan 1;
  there ← get (checkFile name);
  if negb there then
    _ ← resolve ch None;
    mret (Handle ch None, None)
  else
    t ← time_Now;
    slot ← go (Poller ch name false (t + timeout));
    mret (Handle ch (Some slot), None).

(** Modelled from the spec: one turn of the background poll.  Success
    resolves with no error, an elapsed deadline with [Timeout]; either way
    the handle is closed and the goroutine returns.  Otherwise the poll
    interval goes by. *)
Definition poll (slot : nat) : M unit := λ w,
  match tasks w !! slot with
  | Some (Poller ch name want deadline) =>
      if Bool.eqb (checkFile name w) want then
        (_ ← resolve ch None; exit slot) w
      else if deadline <=? now w then
        (_ ← resolve ch (Some (Timeout name)); exit slot) w
      else sleep pollInterval w
  | _ => Done tt w
  end.

(** [err := <-ch] on a waiter handle.  While the receiver is parked the
    poller behind the handle takes its turns; with nobody behind the handle
    the receiver is parked for good. *)
Fixpoint recv_err (turns : nat) (h : handle) : M (option error) :=
  r ← try_recv (hchan h);
  match r with
  | Some (Some m) => mret (as_err m)
  | Some None => mret None
  | None =>
      match turns, hslot h with
      | S n, Some slot => _ ← poll slot; recv_err n h
      | _, _ => starve
      end
  end.

Definition turns_for (timeout : Z) : nat := Z.to_nat (timeout / pollInterval) + 2.

(** ** The monitor behind [Values] *)

(** Modelled from the spec: [buildMonitor] takes a first sample of the value
    file, makes the bounded event channel of the given capacity and starts
    the background monitor; the cleaner it hands back stops that monitor.
    A failing first sample is the error result of its signature. *)
Definition buildMonitor (file : string) (buffersize : Z) : M ((nat * hook) + error) :=
  '(d, err) ← readFile file;
  if err is Some e then mret (inr e) else
  out ← make_chan (Z.to_nat buffersize);
  kill ← make_chan 0;
  _ ← go (Monitor file out kill d);
  mret (inl (out, StopMonitor kill)).

(** Modelled from the spec: one sample of the monitor.  A change of the
    value file is emitted as an [Event]; a full buffer parks the monitor
    (blocking on full); a fired hook closes the event channel. *)
Definition monitor_turn (slot : nat) : M unit := λ w,
  match tasks w !! slot with
  | Some (Monitor file out kill last) =>
      if recv_ready kill w then (_ ← close out; exit slot) w
      else
        ('(d, err) ← readFile file;
         if err is Some _ then mret tt
         else if String.eqb d last then mret tt
         else
           t ← time_Now;
           sent ← try_send out (MEvent (String.eqb d high) t);
           if sent : bool then become slot (Monitor file out kill d) else mret tt) w
  | _ => Done tt w
  end.

(** Calling a resetter. *)
Definition invoke (h : hook) : M unit :=
  _ ← emit (EvHook h);
  match h with
  | CloseChan killer => close killer
  | StopMonitor kill =>
      fired ← get (recv_ready kill);
      if fired : bool then mret tt else close kill
  end.

(** ** gport *)

Definition writeEdge (p : gport) (edges : string) : M (option error) :=
  writeFile (edge p) edges.
Definition readEdge (p : gport) : M (string * option error) := readFile (edge p).
Definition writeDirection (p : gport) (d : string) : M (option error) :=
  writeFile (direction p) d.
Definition readDirection (p : gport) : M (string * option error) :=
  readFile (direction p).
Definition writeValue (p : gport) (v : string) : M (option error) :=
  writeFile (value p) v.
Definition readValue (p : gport) : M (string * option error) := readFile (value p).

Definition checkEnabled (p : gport) : M (option error) :=
  there ← get (checkFile (folder p));
  if there : bool then mret None else mret (Some (NotEnabled (port p))).

Definition IsEnabled (p : gport) : M bool := get (checkFile (folder p)).

Inductive verdict := StateOK | Again | GaveUp (e : error).

(** One pass through the inner [for] of Enable: the body of the loop that
    waits for control file [fname] to exist and be writable. *)
Definition pollWritable (p : gport) (start : Z) (fname : string) : M verdict :=
  there ← get (checkFile fname);
  ok ← (if there : bool then
          err ← writeFile fname " ";
          mret (match err with
                | None => true
                | Some e => negb (os_IsPermission e)
                end)
        else mret false);
  if ok : bool then mret StateOK
  else
    t ← time_Now;
    let remaining := timelimit - (t - start) in
    (* select: the goroutine is parked until the earlier of the two timers
       expires.  The timer of [remaining] was made first and wins a tie; a
       timer of no or of negative duration expires at once. *)
    if remaining <=? pollInterval
    then _ ← sleep (Z.max remaining 0); mret (GaveUp (NotWritable (sport p) fname))
    else _ ← sleep pollInterval; mret Again.

Fixpoint awaitWritable (turns : nat) (p : gport) (start : Z) (fname : string)
    : M (option error) :=
  match turns with
  | O => starve
  | S n =>
      v ← pollWritable p start fname;
      match v with
      | StateOK => mret None
      | GaveUp e => mret (Some e)
      | Again => awaitWritable n p start fname
      end
  end.

Definition Enable (p : gport) : M (option error) :=
  there ← get (checkFile (folder p));
  if there : bool then mret None else
  err ← writeFile (export p) (sport p);
  if err is Some e then mret (Some e) else
  start ← time_Now;
  '(ch, err) ← awaitFileCreate (folder p) timelimit;
  if err is Some e then mret (Some e) else
  err ← recv_err (turns_for timelimit) ch;
  if err is Some e then mret (Some e) else
  range_err [direction p; edge p] (awaitWritable (turns_for timelimit) p start).

(** Reset from the write to the release-request file on. *)
Definition Reset_unexport (p : gport) : M (option error) :=
  err ← writeFile (unexport p) (sport p);
  if err is Some e then mret (Some e) else
  '(ch, err) ← awaitFileRemove (folder p) timelimit;
  if err is Some e then mret (Some e) else
  recv_err (turns_for timelimit) ch.

(** [p.resetters = nil]: the registry is emptied, and the log says when. *)
Definition clear_registry (w : world) : world :=
  with_log (log w ++ [EvClear]) (with_resetters [] w).

Definition Reset (p : gport) : M (option error) :=
  there ← get (checkFile (folder p));
  if negb there then mret None else
  rs ← get resetters;
  _ ← range rs invoke;
  _ ← modify clear_registry;
  Reset_unexport p.

Definition SetMode (p : gport) (mode : Z) : M (option error) :=
  err ← checkEnabled p;
  if err is Some e then mret (Some e) else
  if mode =? GPIOInput then writeDirection p direction_in
  else if mode =? GPIOOutput then writeDirection p direction_out
  else if mode =? GPIOOutputHigh then writeDirection p direction_outhi
  else if mode =? GPIOOutputLow then writeDirection p direction_outlow
  else mret (Some InvalidMode).

Definition IsOutput (p : gport) : M (bool * option error) :=
  err ← checkEnabled p;
  if err is Some e then mret (false, Some e) else
  '(d, err) ← readDirection p;
  if err is Some e then mret (false, Some e) else
  mret (negb (String.eqb d "in"), None).

Definition Value (p : gport) : M (bool * option error) :=
  err ← checkEnabled p;
  if err is Some e then mret (false, Some e) else
  '(d, err) ← readValue p;
  if err is Some e then mret (false, Some e) else
  mret (String.eqb d "1", None).

Definition SetValue (p : gport) (v : bool) : M (option error) :=
  err ← checkEnabled p;
  if err is Some e then mret (Some e) else
  writeValue p (if v then high else low).

Definition SetValues (p : gport) (ch : nat) : M (option nat * option error) :=
  err ← checkEnabled p;
  if err is Some e then mret (None, Some e) else
  errch ← make_chan 1;
  killer ← make_chan 1;
  let cleaner := CloseChan killer in
  _ ← modify (λ w, with_resetters (resetters w ++ [cleaner]) w);
  _ ← go (Setter p ch killer errch);
  mret (Some errch, None).

Definition Values (p : gport) (buffersize : Z) : M (option nat * option error) :=
  err ← checkEnabled p;
  if err is Some e then mret (None, Some e) else
  err ← writeEdge p "both";
  if err is Some e then mret (None, Some e) else
  r ← buildMonitor (value p) buffersize;
  match r with
  | inr e => mret (None, Some e)
  | inl (ch, cleaner) =>
      _ ← modify (λ w, with_resetters (resetters w ++ [cleaner]) w);
      mret (Some ch, None)
  end.

(** ** The goroutine of SetValues *)

(** [errch <- err] followed by the deferred [close(errch)]. *)
Definition setter_send (slot errch : nat) (e : error) : M unit :=
  sent ← try_send errch (MErr (Some e));
  if sent : bool then _ ← close errch; exit slot
  else become slot (SetterSend errch e).

(** The [return] of the goroutine with its deferred [close(errch)]. *)
Definition setter_return (slot errch : nat) : M unit :=
  _ ← close errch; exit slot.

(** [case v, ok := <-ch] *)
Definition setter_input (slot : nat) (p : gport) (inp errch : nat) : M unit :=
  r ← try_recv inp;
  match r with
  | Some (Some m) =>
      err ← SetValue p (as_bool m);
      if err is Some e then setter_send slot errch e else mret tt
  | Some None => setter_return slot errch
  | None => mret tt
  end.

(** One turn of the goroutine: one pass through its [select].  When both
    cases are ready Go picks either; [pick] is that choice ([true]: the
    killer case). *)
Definition setter_turn (pick : bool) (slot : nat) : M unit := λ w,
  match tasks w !! slot with
  | Some (Setter p inp killer errch) =>
      match recv_ready killer w, recv_ready inp w with
      | false, false => Done tt w
      | true, false => setter_return slot errch w
      | false, true => setter_input slot p inp errch w
      | true, true =>
          if pick then setter_return slot errch w
          else setter_input slot p inp errch w
      end
  | Some (SetterSend errch e) => setter_send slot errch e w
  | _ => Done tt w
  end.

(** Several turns in a row, one choice each. *)
Fixpoint setter_run (picks : list bool) (slot : nat) : M unit :=
  match picks with
  | [] => mret tt
  | pick :: rest => _ ← setter_turn pick slot; setter_run rest slot
  end.

(** ** Registries that Reset can run

    What SetValues and Values leave behind: every hook of the registry has a
    channel of its own, and the kill channel of a SetValues stream is still
    open.  [newGPIO] starts from the empty registry, SetValues and Values
    add a hook over a channel they have just made, and Reset empties the
    registry. *)

Definition hook_chan (h : hook) : nat :=
  match h with CloseChan k | StopMonitor k => k end.

Definition hook_ready (w : world) (h : hook) : bool :=
  match chans w !! hook_chan h with
  | Some c => if h is CloseChan _ then negb (closed c) else true
  | None => false
  end.

Definition hooks_ok (w : world) : bool :=
  bool_decide (NoDup (hook_chan <$> resetters w))
  && forallb (hook_ready w) (resetters w).

Definition is_go (e : event) : bool := if e is EvGo _ then true else false.

(** The reference the goroutine of SetValues is compared with: the values
    of a queue applied one after the other with SetValue, up to and with the
    first one that fails; the answer is that error, if any, and the values
    that were not applied. *)
Fixpoint apply_in_order (p : gport) (ms : list msg) : M (option error * list msg) :=
  match ms with
  | [] => mret (None, [])
  | m :: rest =>
      err ← SetValue p (as_bool m);
      if err is Some e then mret (Some e, rest) else apply_in_order p rest
  end.

(** ** State *)

(** [err.Error()] for the errors of the file helpers, whose wording is
    theirs. *)
Variable Error : error → string.

Definition State (p : gport) : M string :=
  let base := "GPIO " +:+ sport p +:+ ": " in
  there ← get (checkFile (folder p));
  if negb there then mret (base +:+ "Reset") else
  '(dir, err) ← readDirection p;
  if err is Some e then mret (base +:+ Error e) else
  '(val, err) ← readValue p;
  if err is Some e then mret (base +:+ Error e) else
  mret (base +:+ " " +:+ dir +:+ " with value " +:+ val).

(** ** Enable and Reset of the earlier version (gpio.go)

    They wait on the file-condition waiter and so sit here, under the names
    of [Simple] with an underscore. *)

Definition Simple_Enable (p : gport) : M (option error) :=
  there ← get (checkFile (folder p));
  if there : bool then mret None else
  err ← writeFile (export p) (sport p);
  if err is Some e then mret (Some e) else
  '(ch, err) ← awaitFileCreate (folder p) Simple.timelimit;
  if err is Some e then mret (Some e) else
  recv_err (turns_for Simple.timelimit) ch.

Definition Simple_Reset (p : gport) : M (option error) :=
  there ← get (checkFile (folder p));
  if negb there then mret None else
  err ← writeFile (unexport p) (sport p);
  if err is Some e then mret (Some e) else
  '(ch, err) ← awaitFileRemove (folder p) Simple.timelimit;
  if err is Some e then mret (Some e) else
  recv_err (turns_for Simple.timelimit) ch.

(** ** Reading the log and the script *)

Definition is_write_to (path : string) (e : event) : bool :=
  if e is EvWrite f _ then String.eqb f path else false.

(** How often [path] was written. *)
Definition writes_to (path : string) (l : list event) : nat :=
  length (List.filter (is_write_to path) l).

Definition spares (path : string) (op : fsop) : bool :=
  if op is FDel q then negb (String.eqb q path) else true.

(** Nothing that is scheduled removes [path]. *)
Definition never_deleted (path : string) (w : world) : bool :=
  forallb (λ e, spares path (snd e)) (script w).

(** [path] is there and stays. *)
Definition settled (path : string) (w : world) : Prop :=
  checkFile path w = true ∧ never_deleted path w = true.

(** Properties of the world that no write, no sleep and no bookkeeping of
    channels, goroutines and log can undo. *)
Definition stable (P : world → Prop) : Prop :=
  (∀ d w, P w → P (sleep_for d w))
  ∧ (∀ w cs, P w → P (with_chans cs w))
  ∧ (∀ w ts, P w → P (with_tasks ts w))
  ∧ (∀ w l, P w → P (with_log l w))
  ∧ (∀ w rs, P w → P (with_resetters rs w))
  ∧ (∀ name text w r w', writeFile name text w = Done r w' → P w → P w').

(** A computation keeps [P] when every run of it that returns leaves [P]
    as it found it. *)
Definition keeps (P : world → Prop) {A} (m : M A) : Prop :=
  ∀ w a w', m w = Done a w' → P w → P w'.

(** ** Reading paths *)

(** A path component: no separator in it. *)
Fixpoint no_slash (s : string) : bool :=
  match s with
  | EmptyString => true
  | String c s' => negb (Ascii.eqb c "/"%char) && no_slash s'
  end.

(** What may follow a component: nothing, or a separator and more. *)
Definition tail_ok (t : string) : bool :=
  match t with
  | EmptyString => true
  | String c _ => Ascii.eqb c "/"%char
  end.

(** Starting streams, one call after the other. *)
Inductive call :=
| StartSetValues (ch : nat)
| StartValues (buffersize : Z).

Definition start (p : gport) (c : call) : M unit :=
  match c with
  | StartSetValues ch => _ ← SetValues p ch; mret tt
  | StartValues buffersize => _ ← Values p buffersize; mret tt
  end.

(** * Facts *)

Hypothesis pollInterval_pos : 0 < pollInterval.

(** ** Running computations *)

Lemma bind_run {A B} (m : M A) (f : A → M B) (w : world) :
  (m ≫= f) w =
    match m w with
    | Done a w' => f a w'
    | Panic why w' => Panic why w'
    | Starved => Starved
    end.
Proof. reflexivity. Qed.

Lemma bind_Done {A B} (m : M A) (f : A → M B) (w w' : world) (a : A) :
  m w = Done a w' → (m ≫= f) w = f a w'.
Proof. intros E. rewrite bind_run, E. reflexivity. Qed.

Lemma get_run {A} (f : world → A) (w : world) : get f w = Done (f w) w.
Proof. reflexivity. Qed.

Lemma modify_run (f : world → world) (w : world) : modify f w = Done tt (f w).
Proof. reflexivity. Qed.

Lemma ret_run {A} (a : A) (w : world) : mret (M := M) a w = Done a w.
Proof. reflexivity. Qed.

Ltac run :=
  repeat first
    [ rewrite bind_run
    | rewrite get_run
    | rewrite modify_run
    | rewrite ret_run ];
  cbn beta iota.

(** What [writeFile] does to the world: one more line in the log, and at
    most the node under [name] is touched. *)
Lemma writeFile_run (name text : string) (w : world) :
  ∃ err w',
    writeFile name text w = Done err w'
    ∧ log w' = log w ++ [EvWrite name text]
    ∧ now w' = now w ∧ script w' = script w ∧ creat w' = creat w
    ∧ chans w' = chans w ∧ tasks w' = tasks w ∧ resetters w' = resetters w
    ∧ (∀ other, other ≠ name → files w' !! other = files w !! other)
    ∧ (is_Some (files w !! name) → is_Some (files w' !! name)).
Proof.
  unfold writeFile, emit. run. simpl.
  destruct (files w !! name) as [n|] eqn:E.
  - destruct (wr n text) as [e|].
    + eexists _, _. split; [reflexivity|]. simpl. rewrite E. repeat split; eauto.
    + eexists _, _. split; [reflexivity|]. simpl. repeat split; eauto.
      * intros other Hne. by rewrite lookup_insert_ne.
      * intros _. rewrite lookup_insert_eq. eauto.
  - destruct (creat w name) as [e|].
    + eexists _, _. split; [reflexivity|]. simpl. rewrite E. repeat split; eauto.
    + eexists _, _. split; [reflexivity|]. simpl. repeat split; eauto.
      * intros other Hne. by rewrite lookup_insert_ne.
      * intros [? ?]; discriminate.
Qed.

Lemma checkEnabled_run (p : gport) (w : world) :
  checkEnabled p w =
    Done (if checkFile (folder p) w then None else Some (NotEnabled (port p))) w.
Proof. unfold checkEnabled. run. by destruct (checkFile (folder p) w). Qed.

(** ** Enable on a claimed line *)

(** C5. Enable is idempotent: when the line directory exists, Enable returns
    nil at once and leaves the world as it found it, so the claim-request
    file is not written; two calls in a row both return nil, and the line
    is still claimed after them. *)
Theorem Enable_idempotent (p : gport) (w : world) :
  checkFile (folder p) w = true →
  Enable p w = Done None w
  ∧ (_ ← Enable p; Enable p) w = Done None w
  ∧ (∀ r w', (_ ← Enable p; Enable p) w = Done r w' →
       log w' = log w ∧ checkFile (folder p) w' = true).
Proof.
  intros Hen.
  assert (H1 : Enable p w = Done None w).
  { unfold Enable. run. by rewrite Hen. }
  assert (H2 : (_ ← Enable p; Enable p) w = Done None w).
  { by rewrite (bind_Done _ _ _ _ _ H1). }
  split; [done|]. split; [done|].
  intros r w' E. rewrite H2 in E. by inversion E; subst.
Qed.

(** ** SetMode *)

(** C6. SetMode on a line that is not claimed returns the not-enabled error
    and leaves the world alone.  On a claimed line it is one write of the
    direction file: "in" for GPIOInput, "out" for GPIOOutput, "low" for
    GPIOOutputLow, "high" for GPIOOutputHigh, and that write is the only new
    line of the log; any other mode returns the invalid-mode error and
    leaves the world alone. *)
Theorem SetMode_spec (p : gport) (mode : Z) (w : world) :
  SetMode p mode w =
    (if checkFile (folder p) w then
       match mode with
       | 0 => writeFile (direction p) "in" w
       | 1 => writeFile (direction p) "out" w
       | 2 => writeFile (direction p) "low" w
       | 3 => writeFile (direction p) "high" w
       | _ => Done (Some InvalidMode) w
       end
     else Done (Some (NotEnabled (port p))) w)
  ∧ (∀ text, ∃ err w',
       writeFile (direction p) text w = Done err w'
       ∧ log w' = log w ++ [EvWrite (direction p) text]).
Proof.
  split.
  - unfold SetMode. rewrite bind_run, checkEnabled_run.
    destruct (checkFile (folder p) w); [|reflexivity].
    unfold writeDirection, GPIOInput, GPIOOutput, GPIOOutputHigh, GPIOOutputLow,
      direction_in, direction_out, direction_outhi, direction_outlow.
    destruct mode as [|m|m]; try reflexivity.
    destruct m as [[m|m|]|[m|m|]|]; try reflexivity; destruct m; reflexivity.
  - intros text. destruct (writeFile_run (direction p) text w)
      as (err & w' & E & L & _). eauto.
Qed.

(** ** IsOutput *)

(** C10. On a claimed line whose direction file can be read and holds the
    text [d], IsOutput answers without error, and answers true exactly when
    [d] is not "in": whatever else the file holds counts as output.  The
    earlier version in gpio.go answers the same. *)
Theorem IsOutput_spec (p : gport) (w : world) (d : string)
    (accepts : string → option errno) :
  checkFile (folder p) w = true →
  files w !! direction p = Some (Fnode d accepts None) →
  ∃ b, IsOutput p w = Done (b, None) w
       ∧ Simple.IsOutput p w = Done (b, None) w
       ∧ (b = true ↔ d ≠ "in"%string).
Proof.
  intros Hen Hfile. exists (negb (String.eqb d "in")).
  assert (Hrd : readFile (direction p) w = Done (d, None) w).
  { unfold readFile. by rewrite Hfile. }
  split; [|split].
  - unfold IsOutput, readDirection. rewrite bind_run, checkEnabled_run, Hen.
    cbn beta iota. by rewrite bind_run, Hrd.
  - unfold Simple.IsOutput, Simple.checkEnabled, Simple.readDirection. run.
    rewrite Hen. cbn beta iota. run. by rewrite Hrd.
  - destruct (String.eqb_spec d "in") as [->|Hne]; simpl; split; try done.
Qed.

(** ** Channels and the waiter *)

Lemma make_chan_run (n : nat) (w : world) :
  make_chan n w = Done (length (chans w)) (with_chans (chans w ++ [Chan [] n false]) w).
Proof. reflexivity. Qed.

Lemma go_run (t : task) (w : world) :
  go t w = Done (length (tasks w))
             (with_log (log w ++ [EvGo (length (tasks w))])
                (with_tasks (tasks w ++ [t]) w)).
Proof. reflexivity. Qed.

Lemma lookup_snoc {A} (l : list A) (x : A) : (l ++ [x]) !! length l = Some x.
Proof. by apply list_lookup_middle. Qed.

Lemma insert_snoc {A} (l : list A) (x y : A) : <[length l := y]> (l ++ [x]) = l ++ [y].
Proof. rewrite insert_app_r_alt by lia. by rewrite Nat.sub_diag. Qed.

(** Resolving a handle nobody has touched: the answer is queued and the
    handle is closed. *)
Lemma resolve_run (ch : nat) (e : option error) (c : nat) (w : world) :
  chans w !! ch = Some (Chan [] (S c) false) →
  resolve ch e w = Done tt (with_chans (<[ch := Chan [MErr e] (S c) true]> (chans w)) w).
Proof.
  intros E. unfold resolve. rewrite bind_run. unfold try_send. rewrite E. simpl.
  unfold close. simpl.
  rewrite list_lookup_insert_eq by (by eapply lookup_lt_Some).
  simpl. unfold with_chans. simpl. by rewrite list_insert_insert_eq.
Qed.

(** Receiving from a resolved handle takes no turn. *)
Lemma recv_err_resolved (turns : nat) (h : handle) (e : option error)
    (c : nat) (w : world) :
  chans w !! hchan h = Some (Chan [MErr e] c true) →
  recv_err turns h w
    = Done e (with_chans (<[hchan h := Chan [] c true]> (chans w)) w).
Proof.
  intros E. destruct turns; simpl; rewrite bind_run; unfold try_recv; by rewrite E.
Qed.

Lemma sleep_for_frame (d : Z) (w : world) :
  now (sleep_for d w) = now w + d
  ∧ chans (sleep_for d w) = chans w ∧ tasks (sleep_for d w) = tasks w
  ∧ resetters (sleep_for d w) = resetters w ∧ log (sleep_for d w) = log w.
Proof. by unfold sleep_for. Qed.

(** The receiver of a waiter handle is never parked for good: with a poller
    behind the handle and turns for the whole deadline, [<-ch] returns. *)
Lemma recv_err_total (turns : nat) :
  ∀ (ch slot : nat) (name : string) (want : bool) (deadline : Z) (c : nat) (w : world),
    tasks w !! slot = Some (Poller ch name want deadline) →
    chans w !! ch = Some (Chan [] (S c) false) →
    (1 ≤ turns)%nat →
    deadline - now w ≤ (Z.of_nat turns - 1) * pollInterval →
    ∃ r w',
      recv_err turns (Handle ch (Some slot)) w = Done r w'
      ∧ log w' = log w ∧ resetters w' = resetters w
      ∧ now w ≤ now w'
      ∧ tasks w' = <[slot := Exited]> (tasks w)
      ∧ chans w' = <[ch := Chan [] (S c) true]> (chans w)
      ∧ (r = None → checkFile name w' = want).
Proof.
  induction turns as [|n IH]; intros ch slot name want deadline c w Ht Hc Hn Hd; [lia|].
  simpl. rewrite bind_run. unfold try_recv at 1. rewrite Hc. simpl.
  rewrite bind_run. unfold poll at 1. rewrite Ht.
  assert (Hlt : (ch < length (chans w))%nat) by (by eapply lookup_lt_Some).
  destruct (Bool.eqb (checkFile name w) want) eqn:Hcond.
  - rewrite bind_run, (resolve_run _ _ c) by done. unfold exit. rewrite modify_run.
    rewrite (recv_err_resolved _ _ None (S c)); simpl.
    2:{ by rewrite list_lookup_insert_eq. }
    eexists _, _. split; [reflexivity|]. simpl.
    rewrite list_insert_insert_eq. repeat split; try done; try lia.
    intros _. apply Bool.eqb_prop in Hcond. exact Hcond.
  - destruct (deadline <=? now w) eqn:Hdl.
    + rewrite bind_run, (resolve_run _ _ c) by done. unfold exit. rewrite modify_run.
      rewrite (recv_err_resolved _ _ (Some (Timeout name)) (S c)); simpl.
      2:{ by rewrite list_lookup_insert_eq. }
      eexists _, _. split; [reflexivity|]. simpl.
      rewrite list_insert_insert_eq. repeat split; try done; lia.
    + apply Z.leb_gt in Hdl. unfold sleep. rewrite modify_run.
      destruct (sleep_for_frame pollInterval w) as (Hnow & Hch & Hts & Hrs & Hlg).
      destruct (IH ch slot name want deadline c (sleep_for pollInterval w))
        as (r & w' & E & L & R & T & K & C & F).
      * by rewrite Hts.
      * by rewrite Hch.
      * destruct n; [|lia]. simpl in Hd. lia.
      * rewrite Hnow. lia.
      * exists r, w'. rewrite E, L, R, K, C, Hch, Hts, Hrs, Hlg.
        repeat split; try done. lia.
Qed.

Lemma turns_for_enough (timeout : Z) :
  0 ≤ timeout →
  (1 ≤ turns_for timeout)%nat
  ∧ timeout ≤ (Z.of_nat (turns_for timeout) - 1) * pollInterval.
Proof.
  intros Ht. unfold turns_for. split; [lia|].
  assert (0 ≤ timeout / pollInterval) by (apply Z.div_pos; lia).
  pose proof (Z.mul_succ_div_gt timeout pollInterval pollInterval_pos).
  rewrite Nat2Z.inj_add, Z2Nat.id by lia. lia.
Qed.

(** C9. When the file is already absent, awaitFileRemove answers with a
    handle that is resolved with success before it returns: no goroutine was
    started, the clock has not moved, and receiving from the handle returns
    nil without a single poll.  awaitFileCreate has no such short cut: also
    for a file that is already there it starts the poller and hands back a
    handle that is still pending. *)
Theorem awaitFileRemove_absent (name : string) (timeout : Z) (w : world) :
  checkFile name w = false →
  (∃ w',
     awaitFileRemove name timeout w = Done (Handle (length (chans w)) None, None) w'
     ∧ tasks w' = tasks w ∧ log w' = log w ∧ now w' = now w
     ∧ chans w' = chans w ++ [Chan [MErr None] 1 true]
     ∧ ∀ turns, ∃ w'',
         recv_err turns (Handle (length (chans w)) None) w' = Done None w''
         ∧ now w'' = now w ∧ tasks w'' = tasks w)
  ∧ (∀ (present : string) (v : world),
       checkFile present v = true →
       ∃ v',
         awaitFileCreate present timeout v
           = Done (Handle (length (chans v)) (Some (length (tasks v))), None) v'
         ∧ tasks v' = tasks v ++ [Poller (length (chans v)) present true (now v + timeout)]
         ∧ log v' = log v ++ [EvGo (length (tasks v))]
         ∧ recv_ready (length (chans v)) v' = false).
Proof.
  intros Habs. split.
  - unfold awaitFileRemove. rewrite bind_run, make_chan_run. run. simpl.
    replace (checkFile name (with_chans (chans w ++ [Chan [] 1 false]) w))
      with (checkFile name w) by reflexivity.
    rewrite Habs. simpl. rewrite bind_run.
    rewrite (resolve_run _ _ 0%nat) by (simpl; apply lookup_snoc).
    simpl. rewrite insert_snoc. run.
    eexists. split; [reflexivity|]. simpl. repeat split; try done.
    intros turns.
    rewrite (recv_err_resolved _ _ None 1%nat) by (simpl; apply lookup_snoc).
    eexists. split; [reflexivity|]. by simpl.
  - intros present v _. unfold awaitFileCreate.
    rewrite bind_run, make_chan_run. unfold time_Now. run.
    rewrite go_run. run. eexists. split; [reflexivity|]. simpl.
    repeat split; try done.
    unfold recv_ready. simpl. by rewrite lookup_snoc.
Qed.

(** ** Reset *)

Lemma invoke_ok (h : hook) (w : world) :
  hook_ready w h = true →
  ∃ w',
    invoke h w = Done tt w'
    ∧ log w' = log w ++ [EvHook h]
    ∧ files w' = files w ∧ now w' = now w ∧ tasks w' = tasks w
    ∧ resetters w' = resetters w
    ∧ (∀ k, k ≠ hook_chan h → chans w' !! k = chans w !! k)
    ∧ (∀ k, h = CloseChan k → recv_ready k w' = true).
Proof.
  unfold hook_ready, invoke, emit. intros Hr. rewrite bind_run, modify_run.
  destruct (chans w !! hook_chan h) as [c|] eqn:E; [|done].
  destruct h as [k|k]; simpl in *.
  - unfold close. simpl. rewrite E. destruct (closed c); [done|].
    eexists. split; [reflexivity|]. simpl. repeat split; try done.
    + intros k' Hne. by rewrite list_lookup_insert_ne.
    + intros k' [= <-]. unfold recv_ready. simpl.
      rewrite list_lookup_insert_eq by (by eapply lookup_lt_Some). simpl.
      by destruct (buf c).
  - rewrite bind_run, get_run.
    replace (recv_ready k (with_log (log w ++ [EvHook (StopMonitor k)]) w))
      with (recv_ready k w) by reflexivity.
    destruct (recv_ready k w) eqn:Hf.
    + rewrite ret_run. eexists. split; [reflexivity|]. by simpl.
    + unfold close. simpl. rewrite E.
      unfold recv_ready in Hf. rewrite E in Hf.
      destruct (buf c); [|done]. rewrite Hf.
      eexists. split; [reflexivity|]. simpl. repeat split; try done.
      intros k' Hne. by rewrite list_lookup_insert_ne.
Qed.

Lemma hook_ready_frame (h : hook) (w w' : world) :
  chans w' !! hook_chan h = chans w !! hook_chan h →
  hook_ready w' h = hook_ready w h.
Proof. unfold hook_ready. by intros ->. Qed.

(** The loop over the registry calls every hook, in order, and none of the
    calls panics. *)
Lemma range_invoke_ok (hs : list hook) :
  ∀ w : world,
    NoDup (hook_chan <$> hs) →
    Forall (λ h, hook_ready w h = true) hs →
    ∃ w',
      range hs invoke w = Done tt w'
      ∧ log w' = log w ++ (EvHook <$> hs)
      ∧ files w' = files w ∧ now w' = now w ∧ tasks w' = tasks w
      ∧ resetters w' = resetters w
      ∧ (∀ k, k ∉ hook_chan <$> hs → chans w' !! k = chans w !! k)
      ∧ (∀ k, CloseChan k ∈ hs → recv_ready k w' = true).
Proof.
  induction hs as [|h hs IH]; intros w Hnd Hok.
  - exists w. simpl. rewrite app_nil_r. repeat split; try done.
    intros k Hin. by apply elem_of_nil in Hin.
  - rewrite fmap_cons in Hnd. apply NoDup_cons in Hnd as [Hnotin Hnd].
    apply Forall_cons in Hok as [Hh Hok].
    destruct (invoke_ok h w Hh) as (w1 & E1 & L1 & F1 & N1 & T1 & R1 & C1 & K1).
    destruct (IH w1 Hnd) as (w2 & E2 & L2 & F2 & N2 & T2 & R2 & C2 & K2).
    { apply Forall_forall. intros h' Hin.
      rewrite Forall_forall in Hok. rewrite <- (Hok h' Hin).
      apply hook_ready_frame, C1.
      intros Heq. apply Hnotin. rewrite <- Heq.
      apply list_elem_of_fmap. eauto. }
    exists w2. cbn [range]. rewrite bind_run, E1. split; [done|].
    rewrite L2, L1, F2, F1, N2, N1, T2, T1, R2, R1, fmap_cons, <- app_assoc.
    repeat split; try done.
    + intros k Hk. rewrite fmap_cons in Hk. apply not_elem_of_cons in Hk as [Hk1 Hk2].
      rewrite C2 by done. by apply C1.
    + intros k Hin. apply elem_of_cons in Hin as [<-|Hin]; [|by apply K2].
      specialize (K1 k eq_refl). unfold recv_ready in *.
      rewrite (C2 k); [done|]. exact Hnotin.
Qed.

Lemma hooks_ok_unfold (w : world) :
  hooks_ok w = true →
  NoDup (hook_chan <$> resetters w)
  ∧ Forall (λ h, hook_ready w h = true) (resetters w).
Proof.
  unfold hooks_ok. intros H. apply andb_prop in H as [H1 H2]. split.
  - by apply bool_decide_eq_true in H1.
  - apply Forall_forall. intros h Hin.
    rewrite forallb_forall in H2. apply H2. by apply list_elem_of_In.
Qed.

(** Reset from the release request on: it always returns, it does not touch
    the registry, and its first act is the write of the release-request
    file; after that it can only start the poller. *)
Lemma Reset_unexport_run (p : gport) (w : world) :
  ∃ r w' tl,
    Reset_unexport p w = Done r w'
    ∧ resetters w' = resetters w
    ∧ log w' = log w ++ EvWrite (unexport p) (sport p) :: tl
    ∧ forallb is_go tl = true.
Proof.
  unfold Reset_unexport. rewrite bind_run.
  destruct (writeFile_run (unexport p) (sport p) w)
    as (err & w1 & E & L & Hnow & _ & _ & Hch & Hts & Hrs & _).
  rewrite E. destruct err as [e|].
  { exists (Some e), w1, []. by rewrite ret_run, L, Hrs. }
  rewrite bind_run. unfold awaitFileRemove.
  rewrite bind_run, make_chan_run, bind_run, get_run.
  replace (checkFile (folder p) (with_chans (chans w1 ++ [Chan [] 1 false]) w1))
    with (checkFile (folder p) w1) by reflexivity.
  destruct (checkFile (folder p) w1); simpl.
  - destruct (turns_for_enough timelimit) as [Hn Hd]; [done|].
    match goal with
    | |- context [recv_err _ _ ?v] =>
        destruct (recv_err_total (turns_for timelimit) (length (chans w1))
                    (length (tasks w1)) (folder p) false (now w1 + timelimit) 0%nat v)
          as (r & w' & E' & L' & R' & _); [| |exact Hn| |]
    end.
    + simpl. apply lookup_snoc.
    + simpl. apply lookup_snoc.
    + simpl. lia.
    + exists r, w', [EvGo (length (tasks w1))]. rewrite E', L', R'. simpl.
      rewrite L, Hrs, <- app_assoc. by simpl.
  - rewrite bind_run, (resolve_run _ _ 0%nat) by (simpl; apply lookup_snoc).
    rewrite ret_run.
    rewrite (recv_err_resolved _ _ None 1%nat).
    2:{ simpl. rewrite insert_snoc. apply lookup_snoc. }
    eexists _, _, []. split; [reflexivity|]. simpl. by rewrite L, Hrs.
Qed.

(** Reset on a claimed line, from start to end. *)
Lemma Reset_run (p : gport) (w : world) :
  checkFile (folder p) w = true →
  hooks_ok w = true →
  ∃ w1 r w3 tl,
    range (resetters w) invoke w = Done tt w1
    ∧ log w1 = log w ++ (EvHook <$> resetters w)
    ∧ files w1 = files w
    ∧ (∀ k, CloseChan k ∈ resetters w → recv_ready k w1 = true)
    ∧ Reset p w = Reset_unexport p (clear_registry w1)
    ∧ Reset p w = Done r w3
    ∧ resetters w3 = []
    ∧ log w3 = log w ++ (EvHook <$> resetters w)
                 ++ EvClear :: EvWrite (unexport p) (sport p) :: tl
    ∧ forallb is_go tl = true.
Proof.
  intros Hen Hok. apply hooks_ok_unfold in Hok as [Hnd Hrd].
  destruct (range_invoke_ok (resetters w) w Hnd Hrd)
    as (w1 & E1 & L1 & F1 & _ & _ & _ & _ & K1).
  destruct (Reset_unexport_run p (clear_registry w1)) as (r & w3 & tl & E3 & R3 & L3 & G3).
  assert (ER : Reset p w = Reset_unexport p (clear_registry w1)).
  { unfold Reset. rewrite bind_run, get_run, Hen. simpl.
    by rewrite bind_run, get_run, bind_run, E1, bind_run, modify_run. }
  exists w1, r, w3, tl. rewrite ER, E3, R3, L3. simpl. rewrite L1, <- !app_assoc.
  by repeat split.
Qed.

(** C2. Reset on a claimed line calls every hook of the registry (in
    order, none panics, every kill channel of a SetValues stream ends up
    closed), then empties the registry, and only then writes the
    release-request file.  The log of the whole call shows the order: the
    hook calls, one for each hook of the registry and in its order; after
    them the emptying of the registry; after that the one write of the
    release-request file; and after the write nothing but the start of the
    waiter: no hook call, no second emptying, no other write.  The write is
    made from a world whose registry is empty, and the registry is empty at
    the end. *)
Theorem Reset_cancels_before_release (p : gport) (w : world) :
  checkFile (folder p) w = true →
  hooks_ok w = true →
  ∃ w1 r w3 tl,
    range (resetters w) invoke w = Done tt w1
    ∧ log w1 = log w ++ (EvHook <$> resetters w)
    ∧ (∀ k, CloseChan k ∈ resetters w → recv_ready k w1 = true)
    ∧ resetters (clear_registry w1) = []
    ∧ log (clear_registry w1) = log w ++ (EvHook <$> resetters w) ++ [EvClear]
    ∧ Reset p w = Reset_unexport p (clear_registry w1)
    ∧ Reset p w = Done r w3
    ∧ resetters w3 = []
    ∧ log w3 = log w ++ (EvHook <$> resetters w)
                 ++ EvClear :: EvWrite (unexport p) (sport p) :: tl
    ∧ forallb is_go tl = true.
Proof.
  intros Hen Hok.
  destruct (Reset_run p w Hen Hok) as (w1 & r & w3 & tl & E1 & L1 & _ & K1 & ER & E3 & R3 & L3 & G3).
  exists w1, r, w3, tl. repeat split; try done.
  simpl. by rewrite L1, <- app_assoc.
Qed.

(** ** SetValues and its goroutine *)

Lemma SetValue_run (p : gport) (v : bool) (w : world) :
  ∃ err w',
    SetValue p v w = Done err w'
    ∧ chans w' = chans w ∧ tasks w' = tasks w
    ∧ resetters w' = resetters w ∧ now w' = now w.
Proof.
  unfold SetValue. rewrite bind_run, checkEnabled_run.
  destruct (checkFile (folder p) w).
  - unfold writeValue.
    destruct (writeFile_run (value p) (if v then high else low) w)
      as (err & w' & E & _ & Hn & _ & _ & Hc & Ht & Hr & _).
    exists err, w'. by rewrite E.
  - eexists _, _. by split; [reflexivity|].
Qed.

Lemma SetValues_run (p : gport) (inp : nat) (w : world) :
  checkFile (folder p) w = true →
  SetValues p inp w =
    Done (Some (length (chans w)), None)
      (World (now w) (files w) (script w) (creat w)
         (chans w ++ [Chan [] 1 false; Chan [] 1 false])
         (tasks w ++ [Setter p inp (S (length (chans w))) (length (chans w))])
         (resetters w ++ [CloseChan (S (length (chans w)))])
         (log w ++ [EvGo (length (tasks w))])).
Proof.
  intros Hen. unfold SetValues. rewrite bind_run, checkEnabled_run, Hen.
  cbn beta iota. rewrite bind_run, make_chan_run, bind_run, make_chan_run.
  rewrite bind_run, modify_run, bind_run, go_run, ret_run.
  unfold with_log, with_tasks, with_resetters, with_chans. simpl.
  rewrite length_app, <- app_assoc. simpl.
  by replace (length (chans w) + 1)%nat with (S (length (chans w))) by lia.
Qed.

Lemma setter_return_run (slot errch : nat) (b : list msg) (c : nat) (w : world) :
  chans w !! errch = Some (Chan b c false) →
  setter_return slot errch w =
    Done tt (with_tasks (<[slot := Exited]> (tasks w))
               (with_chans (<[errch := Chan b c true]> (chans w)) w)).
Proof.
  intros E. unfold setter_return, close, exit. rewrite bind_run, E. simpl.
  by rewrite modify_run.
Qed.

Lemma setter_send_run (slot errch : nat) (e : error) (c : nat) (w : world) :
  chans w !! errch = Some (Chan [] (S c) false) →
  setter_send slot errch e w =
    Done tt (with_tasks (<[slot := Exited]> (tasks w))
               (with_chans (<[errch := Chan [MErr (Some e)] (S c) true]> (chans w)) w)).
Proof.
  intros E. unfold setter_send, try_send. rewrite bind_run, E. simpl.
  unfold close, exit. rewrite bind_run. simpl.
  rewrite list_lookup_insert_eq by (by eapply lookup_lt_Some). simpl.
  rewrite modify_run. unfold with_tasks, with_chans. simpl.
  by rewrite list_insert_insert_eq.
Qed.

Lemma setter_turn_input (pick : bool) (slot : nat) (p : gport)
    (inp killer errch : nat) (w : world) :
  tasks w !! slot = Some (Setter p inp killer errch) →
  recv_ready inp w = true →
  recv_ready killer w = false ∨ pick = false →
  setter_turn pick slot w = setter_input slot p inp errch w.
Proof.
  intros Ht Hi Hk. unfold setter_turn. rewrite Ht, Hi.
  destruct (recv_ready killer w); [|done]. by destruct Hk as [?| ->].
Qed.

Lemma setter_turn_kill (pick : bool) (slot : nat) (p : gport)
    (inp killer errch : nat) (w : world) :
  tasks w !! slot = Some (Setter p inp killer errch) →
  recv_ready killer w = true →
  recv_ready inp w = false ∨ pick = true →
  setter_turn pick slot w = setter_return slot errch w.
Proof.
  intros Ht Hk Hi. unfold setter_turn. rewrite Ht, Hk.
  destruct (recv_ready inp w); [|done]. by destruct Hi as [?| ->].
Qed.

(** A goroutine that returned takes no further turn. *)
Lemma setter_run_exited (picks : list bool) (slot : nat) (w : world) :
  tasks w !! slot = Some Exited → setter_run picks slot w = Done tt w.
Proof.
  intros Ht. induction picks as [|pick picks IH]; [done|].
  cbn [setter_run]. rewrite bind_run. unfold setter_turn at 1. by rewrite Ht.
Qed.

(** SetValue neither reads nor writes the channels. *)
Lemma SetValue_with_chans (p : gport) (v : bool) (cs : list chan) (w : world) :
  SetValue p v (with_chans cs w) =
    match SetValue p v w with
    | Done r w' => Done r (with_chans cs w')
    | Panic why w' => Panic why (with_chans cs w')
    | Starved => Starved
    end.
Proof.
  unfold SetValue, checkEnabled, writeValue, writeFile, emit.
  rewrite !bind_run, !get_run.
  replace (checkFile (folder p) (with_chans cs w)) with (checkFile (folder p) w)
    by reflexivity.
  destruct (checkFile (folder p) w); [|reflexivity].
  unfold mbind, M_bind, modify. simpl.
  destruct (files w !! value p) as [n|].
  - by destruct (wr n (if v then high else low)).
  - by destruct (creat w (value p)).
Qed.

Lemma apply_in_order_with_chans (p : gport) (cs : list chan) (ms : list msg) :
  ∀ w : world,
    ∃ r w',
      apply_in_order p ms w = Done r w'
      ∧ apply_in_order p ms (with_chans cs w) = Done r (with_chans cs w').
Proof.
  induction ms as [|m rest IH]; intros w.
  - by eexists _, _.
  - cbn [apply_in_order]. rewrite !bind_run, SetValue_with_chans.
    destruct (SetValue_run p (as_bool m) w) as (err & w1 & E & _).
    rewrite E. destruct err as [e|]; [by eexists _, _|]. apply IH.
Qed.

(** The turn that takes a value from the input stream. *)
Lemma setter_turn_value (p : gport) (inp killer errch slot c : nat) (w : world)
    (m : msg) (rest : list msg) (ci : nat) (cl pick : bool) :
  tasks w !! slot = Some (Setter p inp killer errch) →
  chans w !! errch = Some (Chan [] (S c) false) →
  inp ≠ errch →
  chans w !! inp = Some (Chan (m :: rest) ci cl) →
  recv_ready killer w = false ∨ pick = false →
  ∃ err w2,
    SetValue p (as_bool m) w = Done err w2
    ∧ setter_turn pick slot w =
        Done tt
          (let cs := <[inp := Chan rest ci cl]> (chans w) in
           if err is Some e
           then with_tasks (<[slot := Exited]> (tasks w))
                  (with_chans (<[errch := Chan [MErr (Some e)] (S c) true]> cs) w2)
           else with_chans cs w2)
    ∧ chans w2 = chans w ∧ tasks w2 = tasks w.
Proof.
  intros Ht He Hne Hi Hk.
  destruct (SetValue_run p (as_bool m) w) as (err & w2 & E & Hc & Hts & _).
  exists err, w2. split; [done|]. split; [|done].
  rewrite (setter_turn_input pick slot p inp killer errch) by
    (try done; unfold recv_ready; by rewrite Hi).
  unfold setter_input. rewrite bind_run. unfold try_recv. rewrite Hi. simpl.
  rewrite bind_run, SetValue_with_chans, E.
  destruct err as [e|]; [|done].
  rewrite (setter_send_run slot errch e c).
  - simpl. by rewrite Hts.
  - simpl. by rewrite list_lookup_insert_ne.
Qed.

(** X10. Turn after turn the goroutine does what [apply_in_order] does to
    the queue of its input stream: the same files, the same log, the same
    values left over; and at the first failure the error is on the error
    channel and the goroutine has returned. *)
Lemma setter_run_in_order (p : gport) (inp killer errch slot c : nat) (ms : list msg) :
  ∀ (picks : list bool) (w : world) (ci : nat) (cl : bool),
    length picks = length ms →
    tasks w !! slot = Some (Setter p inp killer errch) →
    chans w !! errch = Some (Chan [] (S c) false) →
    chans w !! inp = Some (Chan ms ci cl) →
    recv_ready killer w = false →
    inp ≠ errch → killer ≠ inp → killer ≠ errch →
    ∃ err rest w1 w',
      apply_in_order p ms w = Done (err, rest) w1
      ∧ setter_run picks slot w = Done tt w'
      ∧ files w' = files w1 ∧ log w' = log w1
      ∧ chans w' !! inp = Some (Chan rest ci cl)
      ∧ match err with
        | Some e =>
            tasks w' !! slot = Some Exited
            ∧ chans w' !! errch = Some (Chan [MErr (Some e)] (S c) true)
        | None =>
            rest = []
            ∧ tasks w' !! slot = Some (Setter p inp killer errch)
            ∧ chans w' !! errch = Some (Chan [] (S c) false)
        end.
Proof.
  induction ms as [|m rest IH]; intros picks w ci cl Hlen Ht He Hi Hk Hne1 Hne2 Hne3.
  - destruct picks; [|done]. exists None, [], w, w. by repeat split.
  - destruct picks as [|pick picks]; [done|]. simpl in Hlen.
    assert (Hslot : (slot < length (tasks w))%nat) by (by eapply lookup_lt_Some).
    assert (Herr : (errch < length (chans w))%nat) by (by eapply lookup_lt_Some).
    assert (Hinp : (inp < length (chans w))%nat) by (by eapply lookup_lt_Some).
    destruct (setter_turn_value p inp killer errch slot c w m rest ci cl pick)
      as (err & w2 & E & ET & Hc & Hts); try done; [by left|].
    cbn [apply_in_order setter_run]. rewrite !bind_run, E, ET.
    destruct err as [e|].
    + eexists (Some e), rest, w2, _. rewrite ret_run. split; [done|].
      split; [apply setter_run_exited; simpl; by rewrite list_lookup_insert_eq|].
      simpl. repeat split; try done.
      * rewrite list_lookup_insert_ne by done.
        by rewrite list_lookup_insert_eq.
      * by rewrite list_lookup_insert_eq.
      * rewrite list_lookup_insert_eq; [done|]. by rewrite length_insert.
    + cbv zeta. set (cs := <[inp := Chan rest ci cl]> (chans w)).
      destruct (IH picks (with_chans cs w2) ci cl) as (err & rest' & w1 & w' & EA & ER & F & L & I & Q).
      * lia.
      * simpl. by rewrite Hts.
      * simpl. subst cs. by rewrite list_lookup_insert_ne.
      * simpl. subst cs. by rewrite list_lookup_insert_eq.
      * unfold recv_ready in *. simpl. subst cs.
        by rewrite list_lookup_insert_ne.
      * done.
      * done.
      * done.
      * destruct (apply_in_order_with_chans p cs rest w2) as (r & w1' & EA1 & EA2).
        rewrite EA in EA2. injection EA2 as <- ->.
        exists err, rest', w1', w'. by rewrite EA1, ER, F, L.
Qed.

(** One turn of the goroutine of SetValues, from a world in which its
    error channel is still empty and open.
    - With a value at the head of the input stream (and the select picking
      the input case) the turn takes that head and calls SetValue with it.
      If SetValue returns nil the goroutine stays in its loop, the rest of
      the queue waiting.  If SetValue fails, the error is the one message on
      the error channel, the channel is closed, the goroutine has returned,
      and the rest of the queue was not touched: nothing was written after
      the failing write.
    - With the input stream closed and drained the goroutine returns and
      closes the error channel without a message.
    - With the killer channel closed (and the select picking that case, as
      it must when no input is ready) the goroutine returns likewise and
      leaves the input stream alone.
    - A goroutine that returned stays so, whatever turns follow. *)
Lemma setter_turn_cases (p : gport) (inp killer errch slot c : nat) (w : world) :
  tasks w !! slot = Some (Setter p inp killer errch) →
  chans w !! errch = Some (Chan [] (S c) false) →
  inp ≠ errch →
  (∀ m rest ci cl pick,
     chans w !! inp = Some (Chan (m :: rest) ci cl) →
     recv_ready killer w = false ∨ pick = false →
     ∃ err w2,
       SetValue p (as_bool m) (with_chans (<[inp := Chan rest ci cl]> (chans w)) w)
         = Done err w2
       ∧ match err with
         | None =>
             setter_turn pick slot w = Done tt w2
             ∧ tasks w2 !! slot = Some (Setter p inp killer errch)
             ∧ chans w2 !! inp = Some (Chan rest ci cl)
             ∧ chans w2 !! errch = Some (Chan [] (S c) false)
         | Some e =>
             ∃ w3,
               setter_turn pick slot w = Done tt w3
               ∧ tasks w3 !! slot = Some Exited
               ∧ chans w3 !! errch = Some (Chan [MErr (Some e)] (S c) true)
               ∧ chans w3 !! inp = Some (Chan rest ci cl)
               ∧ log w3 = log w2 ∧ files w3 = files w2
               ∧ ∀ picks, setter_run picks slot w3 = Done tt w3
         end)
  ∧ (∀ ci pick,
       chans w !! inp = Some (Chan [] ci true) →
       recv_ready killer w = false ∨ pick = false →
       ∃ w',
         setter_turn pick slot w = Done tt w'
         ∧ tasks w' !! slot = Some Exited
         ∧ chans w' !! errch = Some (Chan [] (S c) true)
         ∧ log w' = log w ∧ files w' = files w
         ∧ ∀ picks, setter_run picks slot w' = Done tt w')
  ∧ (∀ pick,
       recv_ready killer w = true →
       recv_ready inp w = false ∨ pick = true →
       ∃ w',
         setter_turn pick slot w = Done tt w'
         ∧ tasks w' !! slot = Some Exited
         ∧ chans w' !! errch = Some (Chan [] (S c) true)
         ∧ chans w' !! inp = chans w !! inp
         ∧ log w' = log w ∧ files w' = files w
         ∧ ∀ picks, setter_run picks slot w' = Done tt w')
  ∧ (∀ pick,
       recv_ready killer w = false → recv_ready inp w = false →
       setter_turn pick slot w = Done tt w)
  ∧ (∀ picks v, tasks v !! slot = Some Exited → setter_run picks slot v = Done tt v).
Proof.
  intros Ht He Hne.
  assert (Hslot : (slot < length (tasks w))%nat) by (by eapply lookup_lt_Some).
  assert (Herr : (errch < length (chans w))%nat) by (by eapply lookup_lt_Some).
  split; [|split; [|split; [|split]]].
  - intros m rest ci cl pick Hi Hk.
    assert (Hinp : (inp < length (chans w))%nat) by (by eapply lookup_lt_Some).
    destruct (setter_turn_value p inp killer errch slot c w m rest ci cl pick)
      as (err & w2 & E & ET & Hc & Hts); try done.
    exists err, (with_chans (<[inp := Chan rest ci cl]> (chans w)) w2).
    split; [by rewrite SetValue_with_chans, E|].
    destruct err as [e|].
    + eexists. split; [exact ET|]. simpl.
      assert (Hx : <[slot := Exited]> (tasks w) !! slot = Some Exited)
        by (by rewrite list_lookup_insert_eq).
      repeat split; try done.
      * rewrite list_lookup_insert_eq; [done|]. by rewrite length_insert.
      * rewrite list_lookup_insert_ne by done. by rewrite list_lookup_insert_eq.
      * intros picks. by apply setter_run_exited.
    + split; [exact ET|]. simpl. rewrite Hts. repeat split; try done.
      * by rewrite list_lookup_insert_eq.
      * by rewrite list_lookup_insert_ne.
  - intros ci pick Hi Hk.
    rewrite (setter_turn_input pick slot p inp killer errch) by
      (try done; unfold recv_ready; by rewrite Hi).
    unfold setter_input. rewrite bind_run. unfold try_recv. rewrite Hi. simpl.
    rewrite (setter_return_run slot errch [] (S c)) by done.
    eexists. split; [reflexivity|]. simpl.
    assert (Hx : <[slot := Exited]> (tasks w) !! slot = Some Exited)
      by (by rewrite list_lookup_insert_eq).
    repeat split; try done.
    + by rewrite list_lookup_insert_eq.
    + intros picks. by apply setter_run_exited.
  - intros pick Hk Hi.
    rewrite (setter_turn_kill pick slot p inp killer errch) by done.
    rewrite (setter_return_run slot errch [] (S c)) by done.
    eexists. split; [reflexivity|]. simpl.
    assert (Hx : <[slot := Exited]> (tasks w) !! slot = Some Exited)
      by (by rewrite list_lookup_insert_eq).
    repeat split; try done.
    + by rewrite list_lookup_insert_eq.
    + by rewrite list_lookup_insert_ne.
    + intros picks. by apply setter_run_exited.
  - intros pick Hk Hi. unfold setter_turn. by rewrite Ht, Hk, Hi.
  - intros picks v. apply setter_run_exited.
Qed.

(** The goroutine from any point of its loop, for any number of turns while
    nobody cancels.  It does to the head of the queue what [apply_in_order]
    does: one value a turn, in order, up to and with the first one that
    SetValue refuses.  After a failure it has returned, the error is the one
    message on the closed error channel and the values behind the failing
    one are still queued.  When it has run out of values it returns if the
    input stream is closed, closing the error channel without a message,
    and otherwise stays in its loop. *)
Lemma setter_run_prefix (p : gport) (inp killer errch slot c : nat) (picks : list bool) :
  ∀ (ms : list msg) (w : world) (ci : nat) (cl : bool),
    tasks w !! slot = Some (Setter p inp killer errch) →
    chans w !! errch = Some (Chan [] (S c) false) →
    chans w !! inp = Some (Chan ms ci cl) →
    recv_ready killer w = false →
    inp ≠ errch → killer ≠ inp → killer ≠ errch →
    ∃ err rest w1 w',
      apply_in_order p (take (length picks) ms) w = Done (err, rest) w1
      ∧ setter_run picks slot w = Done tt w'
      ∧ files w' = files w1 ∧ log w' = log w1
      ∧ chans w' !! inp = Some (Chan (rest ++ drop (length picks) ms) ci cl)
      ∧ match err with
        | Some e =>
            tasks w' !! slot = Some Exited
            ∧ chans w' !! errch = Some (Chan [MErr (Some e)] (S c) true)
        | None =>
            rest = []
            ∧ if (length ms <? length picks)%nat && cl
              then tasks w' !! slot = Some Exited
                   ∧ chans w' !! errch = Some (Chan [] (S c) true)
              else tasks w' !! slot = Some (Setter p inp killer errch)
                   ∧ chans w' !! errch = Some (Chan [] (S c) false)
        end.
Proof.
  induction picks as [|pick picks IH]; intros ms w ci cl Ht He Hi Hk Hne1 Hne2 Hne3.
  { exists None, [], w, w. simpl. rewrite drop_0. by repeat split. }
  assert (Hslot : (slot < length (tasks w))%nat) by (by eapply lookup_lt_Some).
  assert (Herr : (errch < length (chans w))%nat) by (by eapply lookup_lt_Some).
  assert (Hinp : (inp < length (chans w))%nat) by (by eapply lookup_lt_Some).
  destruct ms as [|m rest0].
  - destruct cl.
    + assert (ET : setter_turn pick slot w = setter_return slot errch w).
      { rewrite (setter_turn_input pick slot p inp killer errch);
          [|done|unfold recv_ready; by rewrite Hi|by left].
        unfold setter_input. rewrite bind_run. unfold try_recv. by rewrite Hi. }
      rewrite (setter_return_run slot errch [] (S c)) in ET by done.
      exists None, [], w. eexists. cbn [setter_run]. rewrite bind_run, ET.
      split; [done|].
      split; [apply setter_run_exited; simpl; by rewrite list_lookup_insert_eq|].
      simpl. split; [done|]. split; [done|].
      split; [by rewrite list_lookup_insert_ne|]. split; [done|].
      split; by rewrite list_lookup_insert_eq.
    + assert (ET : setter_turn pick slot w = Done tt w).
      { unfold setter_turn. rewrite Ht, Hk. unfold recv_ready. by rewrite Hi. }
      destruct (IH [] w ci false) as (err & rest & w1 & w' & EA & ER & F & L & I & Q);
        try done.
      exists err, rest, w1, w'. cbn [setter_run]. rewrite bind_run, ET.
      rewrite take_nil in EA. rewrite drop_nil in I.
      split; [done|]. split; [done|]. split; [done|]. split; [done|].
      split; [by rewrite drop_nil|].
      destruct err as [e|]; [done|]. by rewrite andb_false_r in *.
  - destruct (setter_turn_value p inp killer errch slot c w m rest0 ci cl pick)
      as (err & w2 & E & ET & Hc & Hts); try done; [by left|].
    cbn [length take apply_in_order setter_run]. rewrite !bind_run, E, ET.
    destruct err as [e|].
    + eexists (Some e), (take (length picks) rest0), w2, _. rewrite ret_run.
      split; [done|].
      split; [apply setter_run_exited; simpl; by rewrite list_lookup_insert_eq|].
      simpl. rewrite take_drop. repeat split; try done.
      * rewrite list_lookup_insert_ne by done.
        by rewrite list_lookup_insert_eq.
      * by rewrite list_lookup_insert_eq.
      * rewrite list_lookup_insert_eq; [done|]. by rewrite length_insert.
    + cbv zeta. set (cs := <[inp := Chan rest0 ci cl]> (chans w)).
      destruct (IH rest0 (with_chans cs w2) ci cl)
        as (err & rest' & w1 & w' & EA & ER & F & L & I & Q).
      * simpl. by rewrite Hts.
      * simpl. subst cs. by rewrite list_lookup_insert_ne.
      * simpl. subst cs. by rewrite list_lookup_insert_eq.
      * unfold recv_ready in *. simpl. subst cs.
        by rewrite list_lookup_insert_ne.
      * done.
      * done.
      * done.
      * destruct (apply_in_order_with_chans p cs (take (length picks) rest0) w2)
          as (r & w1' & EA1 & EA2).
        rewrite EA in EA2. injection EA2 as <- ->.
        exists err, rest', w1', w'. rewrite EA1, ER, F, L.
        repeat split; try done.
Qed.

(** C7. SetValues on a claimed line, and the goroutine it starts.  The call
    returns a one-slot error channel, registers its hook and starts the
    goroutine on the input stream.
    - The stream: while nobody cancels, and for any number of turns, the
      goroutine does to the queue of the input stream what [apply_in_order]
      does, one value a turn, in order, each with SetValue, up to and with
      the first one that SetValue refuses.  After that failure the error is
      the one message on the error channel, the channel is closed, the
      goroutine has returned, and the values behind the failing one are
      still queued: no write follows the failing one.  When the goroutine
      has run out of values it returns if the input stream is closed,
      closing the error channel without a message; otherwise it stays in
      its loop.
    - The hook: calling it closes the killer channel, which is then ready.
    - The loop turn by turn, wherever it stands: with a value at the head of
      the input stream (and the select picking the input case) the turn
      takes that head and calls SetValue with it, and either stays in the
      loop or ends the stream with the error as above; with the input stream
      closed and drained the goroutine returns and closes the error channel
      without a message; with the killer channel ready (and the select
      picking that case, as it must when no input is ready) it returns
      likewise and leaves the input stream alone; with nothing ready it is
      parked.
    - A goroutine that returned stays so, whatever turns follow. *)
Theorem SetValues_stream_spec (p : gport) (inp : nat) (w : world)
    (ms : list msg) (ci : nat) (cl : bool) :
  checkFile (folder p) w = true →
  chans w !! inp = Some (Chan ms ci cl) →
  let errch := length (chans w) in
  let killer := S (length (chans w)) in
  let slot := length (tasks w) in
  ∃ w0,
    SetValues p inp w = Done (Some errch, None) w0
    ∧ tasks w0 !! slot = Some (Setter p inp killer errch)
    ∧ chans w0 !! errch = Some (Chan [] 1 false)
    ∧ chans w0 !! killer = Some (Chan [] 1 false)
    ∧ chans w0 !! inp = Some (Chan ms ci cl)
    ∧ resetters w0 = resetters w ++ [CloseChan killer]
    ∧ files w0 = files w
    ∧ log w0 = log w ++ [EvGo slot]
    ∧ (∀ picks,
         ∃ err rest w1 w',
           apply_in_order p (take (length picks) ms) w0 = Done (err, rest) w1
           ∧ setter_run picks slot w0 = Done tt w'
           ∧ files w' = files w1 ∧ log w' = log w1
           ∧ chans w' !! inp = Some (Chan (rest ++ drop (length picks) ms) ci cl)
           ∧ match err with
             | Some e =>
                 tasks w' !! slot = Some Exited
                 ∧ chans w' !! errch = Some (Chan [MErr (Some e)] 1 true)
                 ∧ ∀ more, setter_run more slot w' = Done tt w'
             | None =>
                 rest = []
                 ∧ if (length ms <? length picks)%nat && cl
                   then tasks w' !! slot = Some Exited
                        ∧ chans w' !! errch = Some (Chan [] 1 true)
                        ∧ ∀ more, setter_run more slot w' = Done tt w'
                   else tasks w' !! slot = Some (Setter p inp killer errch)
                        ∧ chans w' !! errch = Some (Chan [] 1 false)
             end)
    ∧ (∀ v,
         chans v !! killer = Some (Chan [] 1 false) →
         ∃ v',
           invoke (CloseChan killer) v = Done tt v'
           ∧ recv_ready killer v' = true
           ∧ tasks v' = tasks v ∧ files v' = files v
           ∧ ∀ k, k ≠ killer → chans v' !! k = chans v !! k)
    ∧ (∀ v,
         tasks v !! slot = Some (Setter p inp killer errch) →
         chans v !! errch = Some (Chan [] 1 false) →
         (∀ m rest ci' cl' pick,
            chans v !! inp = Some (Chan (m :: rest) ci' cl') →
            recv_ready killer v = false ∨ pick = false →
            ∃ err v2,
              SetValue p (as_bool m)
                (with_chans (<[inp := Chan rest ci' cl']> (chans v)) v)
                = Done err v2
              ∧ match err with
                | None =>
                    setter_turn pick slot v = Done tt v2
                    ∧ tasks v2 !! slot = Some (Setter p inp killer errch)
                    ∧ chans v2 !! inp = Some (Chan rest ci' cl')
                    ∧ chans v2 !! errch = Some (Chan [] 1 false)
                | Some e =>
                    ∃ v3,
                      setter_turn pick slot v = Done tt v3
                      ∧ tasks v3 !! slot = Some Exited
                      ∧ chans v3 !! errch = Some (Chan [MErr (Some e)] 1 true)
                      ∧ chans v3 !! inp = Some (Chan rest ci' cl')
                      ∧ log v3 = log v2 ∧ files v3 = files v2
                end)
         ∧ (∀ ci' pick,
              chans v !! inp = Some (Chan [] ci' true) →
              recv_ready killer v = false ∨ pick = false →
              ∃ v',
                setter_turn pick slot v = Done tt v'
                ∧ tasks v' !! slot = Some Exited
                ∧ chans v' !! errch = Some (Chan [] 1 true)
                ∧ log v' = log v ∧ files v' = files v)
         ∧ (∀ pick,
              recv_ready killer v = true →
              recv_ready inp v = false ∨ pick = true →
              ∃ v',
                setter_turn pick slot v = Done tt v'
                ∧ tasks v' !! slot = Some Exited
                ∧ chans v' !! errch = Some (Chan [] 1 true)
                ∧ chans v' !! inp = chans v !! inp
                ∧ log v' = log v ∧ files v' = files v)
         ∧ (∀ pick,
              recv_ready killer v = false → recv_ready inp v = false →
              setter_turn pick slot v = Done tt v))
    ∧ (∀ picks v, tasks v !! slot = Some Exited → setter_run picks slot v = Done tt v).
Proof.
  intros Hen Hi errch killer slot.
  assert (Hinp : (inp < length (chans w))%nat) by (by eapply lookup_lt_Some).
  assert (Hne1 : inp ≠ errch) by (subst errch; lia).
  assert (Hne2 : killer ≠ inp) by (subst killer; lia).
  assert (Hne3 : killer ≠ errch) by (subst killer errch; lia).
  rewrite (SetValues_run p inp w Hen). fold errch killer slot.
  set (w0 := World _ _ _ _ _ _ _ _).
  assert (Ht0 : tasks w0 !! slot = Some (Setter p inp killer errch))
    by apply lookup_snoc.
  assert (He0 : chans w0 !! errch = Some (Chan [] 1 false))
    by (by apply list_lookup_middle).
  assert (Hk0 : chans w0 !! killer = Some (Chan [] 1 false)).
  { subst w0. simpl.
    replace (chans w ++ [Chan [] 1 false; Chan [] 1 false])
      with ((chans w ++ [Chan [] 1 false]) ++ [Chan [] 1 false])
      by (by rewrite <- app_assoc).
    replace killer with (length (chans w ++ [Chan [] 1 false]))
      by (rewrite length_app; simpl; subst killer; lia).
    apply lookup_snoc. }
  assert (Hi0 : chans w0 !! inp = Some (Chan ms ci cl)).
  { subst w0. simpl. by rewrite lookup_app_l. }
  exists w0. split; [done|]. split; [done|]. split; [done|]. split; [done|].
  split; [done|]. split; [done|]. split; [done|]. split; [done|].
  split; [|split; [|split]].
  - intros picks.
    destruct (setter_run_prefix p inp killer errch slot 0 picks ms w0 ci cl)
      as (err & rest & w1 & w' & EA & ER & F & L & I & Q); try done.
    { unfold recv_ready. by rewrite Hk0. }
    exists err, rest, w1, w'. repeat (split; [done|]).
    destruct err as [e|].
    + destruct Q as [Q1 Q2]. split; [done|]. split; [done|].
      intros more. by apply setter_run_exited.
    + destruct Q as [-> Q]. split; [done|].
      destruct ((length ms <? length picks)%nat && cl); [|done].
      destruct Q as [Q1 Q2]. split; [done|]. split; [done|].
      intros more. by apply setter_run_exited.
  - intros v Hv.
    destruct (invoke_ok (CloseChan killer) v) as (v' & E & _ & F & _ & T & _ & C & K).
    { unfold hook_ready. simpl. by rewrite Hv. }
    exists v'. split; [done|]. split; [by apply K|]. split; [done|]. split; [done|].
    exact C.
  - intros v Hv1 Hv2.
    destruct (setter_turn_cases p inp killer errch slot 0 v Hv1 Hv2 Hne1)
      as (A & B & C & D & _).
    split; [|split; [|split]].
    + intros m rest ci' cl' pick Hm Hp.
      destruct (A m rest ci' cl' pick Hm Hp) as (err & v2 & E & Q).
      exists err, v2. split; [done|]. destruct err as [e|]; [|done].
      destruct Q as (v3 & Q1 & Q2 & Q3 & Q4 & Q5 & Q6 & _). by exists v3.
    + intros ci' pick Hm Hp.
      destruct (B ci' pick Hm Hp) as (v' & Q1 & Q2 & Q3 & Q4 & Q5 & _). by exists v'.
    + intros pick Hk Hp.
      destruct (C pick Hk Hp) as (v' & Q1 & Q2 & Q3 & Q4 & Q5 & Q6 & _). by exists v'.
    + exact D.
  - intros picks v. apply setter_run_exited.
Qed.

(** C3, as the code has it.  On a claimed line SetValues registers one hook,
    [close(killer)] over a channel it has just made.  Calling that hook once
    succeeds and closes the kill channel, which the goroutine's select then
    finds ready.  Calling the same hook a second time is not a no-op: it
    panics with "close of closed channel". *)
Theorem SetValues_hook_once (p : gport) (inp : nat) (w : world) :
  checkFile (folder p) w = true →
  ∃ w1 w2,
    SetValues p inp w = Done (Some (length (chans w)), None) w1
    ∧ resetters w1 = resetters w ++ [CloseChan (S (length (chans w)))]
    ∧ tasks w1 = tasks w ++ [Setter p inp (S (length (chans w))) (length (chans w))]
    ∧ invoke (CloseChan (S (length (chans w)))) w1 = Done tt w2
    ∧ recv_ready (S (length (chans w))) w2 = true
    ∧ resetters w2 = resetters w1
    ∧ crash (invoke (CloseChan (S (length (chans w)))) w2)
      = Some "close of closed channel"%string.
Proof.
  intros Hen. rewrite (SetValues_run p inp w Hen).
  set (k := S (length (chans w))).
  assert (Hk : ∀ a b : chan, (chans w ++ [a; b]) !! k = Some b).
  { intros a b. replace (chans w ++ [a; b]) with ((chans w ++ [a]) ++ [b])
      by (by rewrite <- app_assoc).
    replace k with (length (chans w ++ [a])) by (rewrite length_app; simpl; lia).
    apply lookup_snoc. }
  assert (Hi : ∀ a b c : chan, <[k := c]> (chans w ++ [a; b]) = chans w ++ [a; c]).
  { intros a b c'. replace (chans w ++ [a; b]) with ((chans w ++ [a]) ++ [b])
      by (by rewrite <- app_assoc).
    replace k with (length (chans w ++ [a])) by (rewrite length_app; simpl; lia).
    rewrite insert_snoc. by rewrite <- app_assoc. }
  eexists _, _. split; [reflexivity|]. simpl.
  split; [done|]. split; [done|].
  unfold invoke, emit, close. split.
  { rewrite bind_run, modify_run. simpl. rewrite Hk. simpl. rewrite Hi. reflexivity. }
  split.
  { unfold recv_ready. simpl. by rewrite Hk. }
  split; [done|].
  rewrite bind_run, modify_run. simpl. by rewrite Hk.
Qed.

(** C4, as the code has it.  A turn of a stream never changes the registry,
    however the turn ends: neither the goroutine of SetValues (also when it
    returns because its input stream was closed or a write failed) nor the
    monitor of Values takes its hook out.  The hooks leave the registry in
    Reset, which empties it. *)
Theorem stream_hook_stays (p : gport) (w : world) :
  checkFile (folder p) w = true →
  hooks_ok w = true →
  (∀ pick slot v,
     match setter_turn pick slot v with
     | Done _ v' | Panic _ v' => resetters v' = resetters v
     | Starved => False
     end)
  ∧ (∀ slot v,
       match monitor_turn slot v with
       | Done _ v' | Panic _ v' => resetters v' = resetters v
       | Starved => False
       end)
  ∧ ∃ r w', Reset p w = Done r w' ∧ resetters w' = [].
Proof.
  intros Hen Hok. split; [|split].
  - intros pick slot v.
    assert (Ret : ∀ errch u, match setter_return slot errch u with
                             | Done _ v' | Panic _ v' => resetters v' = resetters u
                             | Starved => False end).
    { intros errch u. unfold setter_return, close, exit. rewrite bind_run.
      destruct (chans u !! errch) as [c|]; [|done].
      by destruct (closed c). }
    assert (Snd : ∀ errch e u, match setter_send slot errch e u with
                               | Done _ v' | Panic _ v' => resetters v' = resetters u
                               | Starved => False end).
    { intros errch e u. unfold setter_send, try_send, close, exit, become.
      rewrite bind_run. destruct (chans u !! errch) as [c|] eqn:E; [|done].
      destruct (closed c) eqn:Ec; [done|].
      destruct (length (buf c) <? cap c)%nat; [|done].
      rewrite bind_run. simpl.
      destruct (<[errch:=_]> (chans u) !! errch) as [c'|]; [|done].
      by destruct (closed c'). }
    assert (Inp : ∀ q inp errch u, match setter_input slot q inp errch u with
                                   | Done _ v' | Panic _ v' => resetters v' = resetters u
                                   | Starved => False end).
    { intros q inp errch u. unfold setter_input. rewrite bind_run. unfold try_recv.
      destruct (chans u !! inp) as [c|]; [|done].
      destruct (buf c) as [|m rest].
      - destruct (closed c); [apply Ret|done].
      - rewrite bind_run.
        match goal with |- context [SetValue q ?b ?u'] =>
          destruct (SetValue_run q b u') as (err & w2 & E & _ & _ & Hr & _) end.
        rewrite E. destruct err as [e|]; [|by rewrite ret_run].
        specialize (Snd errch e w2).
        destruct (setter_send slot errch e w2); try done; by rewrite Snd, Hr. }
    unfold setter_turn. destruct (tasks v !! slot) as [[| q inp killer errch | errch e | |]|]; try done.
    + destruct (recv_ready killer v), (recv_ready inp v); try done;
        try destruct pick; try apply Ret; try apply Inp.
    + apply Snd.
  - intros slot v. unfold monitor_turn.
    destruct (tasks v !! slot) as [[| | | file out kill last |]|]; try done.
    destruct (recv_ready kill v).
    + unfold close, exit. rewrite bind_run.
      destruct (chans v !! out) as [c|]; [|done]. by destruct (closed c).
    + rewrite bind_run. unfold readFile.
      destruct (files v !! file) as [n|]; [|done].
      destruct (rd n); [done|]. cbn beta iota.
      destruct (String.eqb (data n) last); [done|].
      unfold time_Now. rewrite bind_run, get_run, bind_run. unfold try_send.
      destruct (chans v !! out) as [c|]; [|done].
      destruct (closed c); [done|].
      by destruct (length (buf c) <? cap c)%nat.
  - destruct (Reset_run p w Hen Hok) as (w1 & r & w3 & tl & _ & _ & _ & _ & _ & E & R & _).
    by exists r, w3.
Qed.

(** ** Values *)

(** C8. Values on a line that is not claimed returns the not-enabled error
    and changes nothing.  On a claimed line it first writes "both" to the
    edge file.  If that write fails, its error is returned: no goroutine was
    started and the registry is as before.  If it succeeds and the monitor
    can be built, the monitor is started after the write, and exactly one
    hook, the monitor's, is appended to the registry; if the monitor cannot
    be built, the error is returned, nothing was started and the registry
    is as before. *)
Theorem Values_spec (p : gport) (buffersize : Z) (w : world) :
  if checkFile (folder p) w then
    ∃ err w1,
      writeFile (edge p) "both" w = Done err w1
      ∧ log w1 = log w ++ [EvWrite (edge p) "both"]
      ∧ tasks w1 = tasks w ∧ resetters w1 = resetters w
      ∧ match err with
        | Some e => Values p buffersize w = Done (None, Some e) w1
        | None =>
            match readFile (value p) w1 with
            | Done (d, None) _ =>
                ∃ w2,
                  Values p buffersize w = Done (Some (length (chans w)), None) w2
                  ∧ resetters w2 = resetters w ++ [StopMonitor (S (length (chans w)))]
                  ∧ tasks w2 =
                      tasks w ++ [Monitor (value p) (length (chans w))
                                    (S (length (chans w))) d]
                  ∧ log w2 = log w ++ [EvWrite (edge p) "both"; EvGo (length (tasks w))]
            | Done (_, Some e) _ => Values p buffersize w = Done (None, Some e) w1
            | _ => False
            end
        end
  else Values p buffersize w = Done (None, Some (NotEnabled (port p))) w.
Proof.
  unfold Values. rewrite bind_run, checkEnabled_run.
  destruct (checkFile (folder p) w); [|reflexivity].
  cbn beta iota. unfold writeEdge.
  destruct (writeFile_run (edge p) "both" w)
    as (err & w1 & E & L & _ & _ & _ & Hc & Ht & Hr & _).
  exists err, w1. rewrite bind_run, E. repeat split; try done.
  destruct err as [e|]; [reflexivity|].
  rewrite bind_run. unfold buildMonitor. rewrite bind_run. unfold readFile.
  destruct (files w1 !! value p) as [n|]; [|reflexivity].
  destruct (rd n); [reflexivity|]. cbn beta iota.
  rewrite bind_run, make_chan_run, bind_run, make_chan_run, bind_run, go_run.
  rewrite ret_run, bind_run, modify_run, ret_run. simpl.
  eexists. rewrite length_app, Hc. simpl.
  replace (length (chans w) + 1)%nat with (S (length (chans w))) by lia.
  split; [reflexivity|]. simpl. rewrite Hr, Ht, L, <- app_assoc. by simpl.
Qed.

(** ** The registry stays one that Reset can run *)

Lemma hooks_ok_register (w w' : world) (a b : chan) (h : hook) :
  hooks_ok w = true →
  chans w' = chans w ++ [a; b] →
  resetters w' = resetters w ++ [h] →
  hook_chan h = S (length (chans w)) →
  closed b = false →
  hooks_ok w' = true.
Proof.
  intros Hok Hc Hr Hh Hb. apply hooks_ok_unfold in Hok as [Hnd Hrd].
  rewrite Forall_forall in Hrd.
  assert (Hlt : ∀ h', h' ∈ resetters w → (hook_chan h' < length (chans w))%nat).
  { intros h' Hin. specialize (Hrd h' Hin). unfold hook_ready in Hrd.
    destruct (chans w !! hook_chan h') eqn:E; [|done]. by eapply lookup_lt_Some. }
  unfold hooks_ok. apply andb_true_intro. split.
  - apply bool_decide_eq_true. rewrite Hr, fmap_app. apply NoDup_app.
    split; [done|]. split; [|apply NoDup_singleton].
    intros k Hin Hk. apply list_elem_of_singleton in Hk. subst k.
    apply list_elem_of_fmap in Hin as (h' & Heq & Hin).
    specialize (Hlt h' Hin). lia.
  - apply forallb_forall. intros h' Hin. apply list_elem_of_In in Hin.
    rewrite Hr in Hin. apply elem_of_app in Hin as [Hin|Hin].
    + rewrite <- (Hrd h' Hin). unfold hook_ready.
      by rewrite Hc, lookup_app_l by (by apply Hlt).
    + apply list_elem_of_singleton in Hin. subst h'. unfold hook_ready.
      rewrite Hc, Hh.
      replace (chans w ++ [a; b]) with ((chans w ++ [a]) ++ [b])
        by (by rewrite <- app_assoc).
      replace (S (length (chans w))) with (length (chans w ++ [a]))
        by (rewrite length_app; simpl; lia).
      rewrite lookup_snoc. destruct h; by rewrite ?Hb.
Qed.

(** SetValues leaves a registry that Reset can run. *)
Lemma SetValues_keeps_hooks_ok (p : gport) (inp : nat) (w : world) :
  checkFile (folder p) w = true →
  hooks_ok w = true →
  ∃ r w', SetValues p inp w = Done r w' ∧ hooks_ok w' = true.
Proof.
  intros Hen Hok. rewrite (SetValues_run p inp w Hen). eexists _, _.
  split; [reflexivity|].
  by eapply (hooks_ok_register w _ (Chan [] 1 false) (Chan [] 1 false)
               (CloseChan (S (length (chans w))))).
Qed.

Lemma hooks_ok_frame (w w' : world) :
  chans w' = chans w → resetters w' = resetters w → hooks_ok w' = hooks_ok w.
Proof. unfold hooks_ok, hook_ready. by intros -> ->. Qed.

(** Values leaves a registry that Reset can run, whether it succeeds or not. *)
Lemma Values_keeps_hooks_ok (p : gport) (buffersize : Z) (w : world) :
  hooks_ok w = true →
  ∃ r w', Values p buffersize w = Done r w' ∧ hooks_ok w' = true.
Proof.
  intros Hok. unfold Values. rewrite bind_run, checkEnabled_run.
  destruct (checkFile (folder p) w); [|by eexists _, _].
  cbn beta iota. unfold writeEdge.
  destruct (writeFile_run (edge p) "both" w)
    as (err & w1 & E & _ & _ & _ & _ & Hc & _ & Hr & _).
  assert (Hok1 : hooks_ok w1 = true) by (by rewrite (hooks_ok_frame w w1)).
  rewrite bind_run, E. destruct err as [e|]; [by eexists _, _|].
  rewrite bind_run. unfold buildMonitor. rewrite bind_run. unfold readFile.
  destruct (files w1 !! value p) as [n|]; [|by eexists _, _].
  destruct (rd n); [by eexists _, _|]. cbn beta iota.
  rewrite bind_run, make_chan_run, bind_run, make_chan_run, bind_run, go_run.
  rewrite ret_run, bind_run, modify_run, ret_run.
  eexists _, _. split; [reflexivity|].
  eapply (hooks_ok_register w1 _ (Chan [] (Z.to_nat buffersize) false) (Chan [] 0 false));
    [exact Hok1| | | |reflexivity].
  - simpl. by rewrite <- app_assoc.
  - reflexivity.
  - simpl. rewrite length_app. simpl. lia.
Qed.

(** ** Enable always returns *)

Lemma pollWritable_run (p : gport) (start : Z) (fname : string) (w : world) :
  ∃ v w1 k,
    pollWritable p start fname w = Done v w1
    ∧ now w ≤ now w1
    ∧ log w1 = log w ++ replicate k (EvWrite fname " ")
    ∧ (v = Again →
       now w1 = now w + pollInterval
       ∧ pollInterval < timelimit - (now w - start)).
Proof.
  unfold pollWritable. rewrite bind_run, get_run.
  assert (Tail : ∀ u k, now u = now w → log u = log w ++ replicate k (EvWrite fname " ") →
    ∃ v w1 k,
      (t ← time_Now;
       if timelimit - (t - start) <=? pollInterval
       then _ ← sleep (Z.max (timelimit - (t - start)) 0);
            mret (GaveUp (NotWritable (sport p) fname))
       else _ ← sleep pollInterval; mret Again) u = Done v w1
      ∧ now w ≤ now w1
      ∧ log w1 = log w ++ replicate k (EvWrite fname " ")
      ∧ (v = Again →
         now w1 = now w + pollInterval
         ∧ pollInterval < timelimit - (now w - start))).
  { intros u k Hu Hl. unfold time_Now. rewrite bind_run, get_run, Hu.
    destruct (timelimit - (now w - start) <=? pollInterval) eqn:Hcmp.
    - unfold sleep. rewrite bind_run, modify_run, ret_run.
      eexists _, _, k. split; [reflexivity|].
      destruct (sleep_for_frame (Z.max (timelimit - (now w - start)) 0) u)
        as (-> & _ & _ & _ & ->).
      rewrite Hu. split; [lia|]. by split.
    - apply Z.leb_gt in Hcmp. unfold sleep. rewrite bind_run, modify_run, ret_run.
      eexists _, _, k. split; [reflexivity|].
      destruct (sleep_for_frame pollInterval u) as (-> & _ & _ & _ & ->).
      rewrite Hu. split; [lia|]. split; [done|]. intros _. split; [done|lia]. }
  destruct (checkFile fname w).
  - cbn beta iota. rewrite !bind_run.
    destruct (writeFile_run fname " " w) as (err & w1 & E & L & Hn & _).
    rewrite E, ret_run.
    destruct (match err with None => true | Some e => negb (os_IsPermission e) end).
    + eexists _, _, 1%nat. rewrite ret_run. split; [reflexivity|].
      split; [lia|]. by split.
    + by apply (Tail w1 1%nat).
  - cbn beta iota. rewrite bind_run, ret_run. apply (Tail w 0%nat); [done|].
    simpl. by rewrite app_nil_r.
Qed.

Lemma awaitWritable_total (p : gport) (start : Z) (fname : string) (turns : nat) :
  ∀ w : world,
    (1 ≤ turns)%nat →
    timelimit - (now w - start) ≤ Z.of_nat turns * pollInterval →
    ∃ r w' k,
      awaitWritable turns p start fname w = Done r w'
      ∧ now w ≤ now w'
      ∧ log w' = log w ++ replicate k (EvWrite fname " ").
Proof.
  induction turns as [|n IH]; intros w Hn Hd; [lia|].
  cbn [awaitWritable]. rewrite bind_run.
  destruct (pollWritable_run p start fname w) as (v & w1 & k & E & Hmono & L & Hagain).
  rewrite E. destruct v as [| |e].
  - eexists _, _, k. by rewrite ret_run.
  - destruct (Hagain eq_refl) as [Hnow Hrem].
    destruct (IH w1) as (r & w' & k' & E' & Hm' & L').
    + destruct n; [|lia]. simpl in Hd. lia.
    + rewrite Hnow. lia.
    + exists r, w', (k + k')%nat. split; [done|]. split; [lia|].
      by rewrite L', L, replicate_add, app_assoc.
  - eexists _, _, k. by rewrite ret_run.
Qed.

(** Enable never parks for good and never panics: it returns nil or an
    error, whatever the kernel does.  What it leaves in the log is nothing
    (the line was claimed already), or the one write of the claim-request
    file, then the start of the poller, then placeholder writes to the
    direction file and after them to the edge file.  The value file is not
    among the files it probes. *)
Lemma Enable_run (p : gport) (w : world) :
  ∃ r w' tl,
    Enable p w = Done r w'
    ∧ log w' = log w ++ tl
    ∧ (tl = []
       ∨ tl = [EvWrite (export p) (sport p)]
       ∨ ∃ slot k1 k2,
           tl = EvWrite (export p) (sport p) :: EvGo slot
                  :: replicate k1 (EvWrite (direction p) " ")
                  ++ replicate k2 (EvWrite (edge p) " ")).
Proof.
  unfold Enable. rewrite bind_run, get_run.
  destruct (checkFile (folder p) w).
  { exists None, w, []. rewrite app_nil_r. split; [done|]. split; [done|]. by left. }
  rewrite bind_run.
  destruct (writeFile_run (export p) (sport p) w) as (err & w1 & E & L1 & _).
  rewrite E. destruct err as [e|].
  { exists (Some e), w1, [EvWrite (export p) (sport p)].
    split; [done|]. split; [done|]. by right; left. }
  unfold time_Now, awaitFileCreate.
  rewrite bind_run, get_run, !bind_run, make_chan_run. unfold time_Now.
  rewrite bind_run, get_run, bind_run, go_run, ret_run. simpl.
  destruct (turns_for_enough timelimit) as [Hn Hd]; [done|].
  rewrite bind_run.
  match goal with
  | |- context [recv_err _ _ ?v] =>
      destruct (recv_err_total (turns_for timelimit) (length (chans w1))
                  (length (tasks w1)) (folder p) true (now w1 + timelimit) 0%nat v)
        as (r & w3 & E3 & L3 & _ & Hmono & _); [| |exact Hn| |]
  end.
  - simpl. apply lookup_snoc.
  - simpl. apply lookup_snoc.
  - simpl. lia.
  - rewrite E3. simpl in Hmono, L3.
    assert (Shape : ∀ k1 k2 v,
      log v = (log w3 ++ replicate k1 (EvWrite (direction p) " "))
                ++ replicate k2 (EvWrite (edge p) " ") →
      log v = log w ++ EvWrite (export p) (sport p) :: EvGo (length (tasks w1))
                :: replicate k1 (EvWrite (direction p) " ")
                ++ replicate k2 (EvWrite (edge p) " ")).
    { intros k1 k2 v ->. rewrite L3, L1, <- !app_assoc. by simpl. }
    destruct r as [e|].
    { eexists _, _, _. rewrite ret_run. split; [reflexivity|].
      split; [apply (Shape 0%nat 0%nat); simpl; by rewrite !app_nil_r|].
      right; right. by exists (length (tasks w1)), 0%nat, 0%nat. }
    rewrite bind_run.
    destruct (awaitWritable_total p (now w1) (direction p) (turns_for timelimit) w3)
      as (r1 & w4 & k1 & E4 & Hm4 & L4); [done|lia|].
    rewrite E4. destruct r1 as [e|].
    { eexists _, _, _. rewrite ret_run. split; [reflexivity|].
      split; [apply (Shape k1 0%nat); simpl; by rewrite app_nil_r|].
      right; right. by exists (length (tasks w1)), k1, 0%nat. }
    rewrite bind_run.
    destruct (awaitWritable_total p (now w1) (edge p) (turns_for timelimit) w4)
      as (r2 & w5 & k2 & E5 & Hm5 & L5); [done|lia|].
    rewrite E5.
    exists r2, w5, (EvWrite (export p) (sport p) :: EvGo (length (tasks w1))
                    :: replicate k1 (EvWrite (direction p) " ")
                    ++ replicate k2 (EvWrite (edge p) " ")).
    split; [by destruct r2|].
    split; [apply Shape; by rewrite L5, L4|].
    right; right. by exists (length (tasks w1)), k1, k2.
Qed.

(** ** The readiness loop of Enable *)

(** C1, as the code has it.  In a pass of the readiness loop that finds the
    file, the placeholder " " is written to it.  When that write succeeds or
    fails with anything but a permissions error, the file counts as ready:
    the pass ends the loop for that file with no error.  When the write fails
    with a permissions error the file counts as not ready yet: if no more
    than a poll interval of the budget is left, the loop waits for what is
    left of it (the kernel goes on meanwhile) and gives up with the timeout
    error, no earlier than the time limit after [start]; otherwise it
    sleeps for the poll interval and polls again.
    Enable as a whole returns, and the only files it probes in this way are
    the direction file and, after it, the edge file; the value file is not
    probed. *)
Theorem pollWritable_spec (p : gport) (start : Z) (fname : string) (n : nat) (w : world) :
  checkFile fname w = true →
  (∃ err w1,
     writeFile fname " " w = Done err w1
     ∧ log w1 = log w ++ [EvWrite fname " "]
     ∧ if (if err is Some e then os_IsPermission e else false) then
         pollWritable p start fname w =
           (if timelimit - (now w - start) <=? pollInterval
            then Done (GaveUp (NotWritable (sport p) fname))
                   (sleep_for (Z.max (timelimit - (now w - start)) 0) w1)
            else Done Again (sleep_for pollInterval w1))
         ∧ awaitWritable (S n) p start fname w =
           (if timelimit - (now w - start) <=? pollInterval
            then Done (Some (NotWritable (sport p) fname))
                   (sleep_for (Z.max (timelimit - (now w - start)) 0) w1)
            else awaitWritable n p start fname (sleep_for pollInterval w1))
         ∧ start + timelimit
             ≤ now (sleep_for (Z.max (timelimit - (now w - start)) 0) w1)
       else
         pollWritable p start fname w = Done StateOK w1
         ∧ awaitWritable (S n) p start fname w = Done None w1)
  ∧ (∀ v, ∃ r v' tl,
       Enable p v = Done r v'
       ∧ log v' = log v ++ tl
       ∧ (tl = []
          ∨ tl = [EvWrite (export p) (sport p)]
          ∨ ∃ slot k1 k2,
              tl = EvWrite (export p) (sport p) :: EvGo slot
                     :: replicate k1 (EvWrite (direction p) " ")
                     ++ replicate k2 (EvWrite (edge p) " "))).
Proof.
  intros Hthere. split; [|intros v; apply Enable_run].
  destruct (writeFile_run fname " " w) as (err & w1 & E & L & Hnow & _).
  exists err, w1. split; [done|]. split; [done|].
  assert (P : pollWritable p start fname w =
    if (if err is Some e then os_IsPermission e else false)
    then (if timelimit - (now w - start) <=? pollInterval
          then Done (GaveUp (NotWritable (sport p) fname))
                 (sleep_for (Z.max (timelimit - (now w - start)) 0) w1)
          else Done Again (sleep_for pollInterval w1))
    else Done StateOK w1).
  { unfold pollWritable. run. rewrite Hthere. cbn beta iota. run. rewrite E.
    cbn beta iota. run. unfold time_Now, sleep.
    destruct err as [e|]; [destruct (os_IsPermission e)|]; simpl; run;
      rewrite ?Hnow; try reflexivity.
    destruct (timelimit - (now w - start) <=? pollInterval); by run. }
  cbn [awaitWritable]. rewrite bind_run, P.
  destruct (if err is Some e then os_IsPermission e else false).
  - split; [reflexivity|]. split.
    + destruct (timelimit - (now w - start) <=? pollInterval); reflexivity.
    + destruct (sleep_for_frame (Z.max (timelimit - (now w - start)) 0) w1)
        as (-> & _). lia.
  - split; reflexivity.
Qed.

(** * Further facts *)

(** ** What a computation keeps *)

Lemma keeps_ret (P : world → Prop) {A} (a : A) : keeps P (mret a : M A).
Proof. intros w a' w' E HP. by injection E as _ <-. Qed.

Lemma keeps_get (P : world → Prop) {A} (f : world → A) : keeps P (get f).
Proof. intros w a' w' E HP. by injection E as _ <-. Qed.

Lemma keeps_modify (P : world → Prop) (f : world → world) :
  (∀ w, P w → P (f w)) → keeps P (modify f).
Proof. intros Hf w a' w' E HP. injection E as _ <-. by apply Hf. Qed.

Lemma keeps_bind (P : world → Prop) {A B} (m : M A) (f : A → M B) :
  keeps P m → (∀ a, keeps P (f a)) → keeps P (m ≫= f).
Proof.
  intros Hm Hf w b w' E HP. rewrite bind_run in E.
  destruct (m w) as [a w1| |] eqn:Em; try done.
  eapply Hf; [exact E|]. by eapply Hm.
Qed.

Section Stable.

Variable P : world → Prop.
Hypothesis P_stable : stable P.

Lemma keeps_sleep (d : Z) : keeps P (sleep d).
Proof. apply keeps_modify. apply P_stable. Qed.

Lemma keeps_emit (e : event) : keeps P (emit e).
Proof. apply keeps_modify. intros w HP. by apply P_stable. Qed.

Lemma keeps_writeFile (name text : string) : keeps P (writeFile name text).
Proof.
  intros w r w' E HP.
  destruct P_stable as (_ & _ & _ & _ & _ & Hw). by eapply Hw.
Qed.

Lemma keeps_readFile (name : string) : keeps P (readFile name).
Proof.
  intros w r w' E HP. unfold readFile in E.
  destruct (files w !! name) as [n|]; [destruct (rd n)|]; by injection E as _ <-.
Qed.

Lemma keeps_make_chan (n : nat) : keeps P (make_chan n).
Proof. intros w r w' E HP. injection E as _ <-. by apply P_stable. Qed.

Lemma keeps_close (k : nat) : keeps P (close k).
Proof.
  intros w r w' E HP. unfold close in E.
  destruct (chans w !! k) as [c|]; [|done]. destruct (closed c); [done|].
  injection E as _ <-. by apply P_stable.
Qed.

Lemma keeps_try_send (k : nat) (m : msg) : keeps P (try_send k m).
Proof.
  intros w r w' E HP. unfold try_send in E.
  destruct (chans w !! k) as [c|]; [|by injection E as _ <-].
  destruct (closed c); [done|].
  destruct (length (buf c) <? cap c)%nat; injection E as _ <-; [|done].
  by apply P_stable.
Qed.

Lemma keeps_try_recv (k : nat) : keeps P (try_recv k).
Proof.
  intros w r w' E HP. unfold try_recv in E.
  destruct (chans w !! k) as [c|]; [|by injection E as _ <-].
  destruct (buf c).
  - destruct (closed c); by injection E as _ <-.
  - injection E as _ <-. by apply P_stable.
Qed.

Lemma keeps_go (t : task) : keeps P (go t).
Proof.
  intros w r w' E HP. injection E as _ <-.
  destruct P_stable as (_ & _ & Ht & Hl & _). by apply Hl, Ht.
Qed.

Lemma keeps_exit (slot : nat) : keeps P (exit slot).
Proof. apply keeps_modify. intros w HP. by apply P_stable. Qed.

Lemma keeps_become (slot : nat) (t : task) : keeps P (become slot t).
Proof. apply keeps_modify. intros w HP. by apply P_stable. Qed.

Lemma keeps_resolve (ch : nat) (e : option error) : keeps P (resolve ch e).
Proof. apply keeps_bind; [apply keeps_try_send|]. intros _. apply keeps_close. Qed.

Lemma keeps_poll (slot : nat) : keeps P (poll slot).
Proof.
  intros w r w' E HP. unfold poll in E.
  destruct (tasks w !! slot) as [[ch name want deadline| | | |]|];
    try (by injection E as _ <-).
  destruct (Bool.eqb (checkFile name w) want).
  - revert E HP. apply keeps_bind; [apply keeps_resolve|]. intros _. apply keeps_exit.
  - destruct (deadline <=? now w).
    + revert E HP. apply keeps_bind; [apply keeps_resolve|]. intros _. apply keeps_exit.
    + revert E HP. apply keeps_sleep.
Qed.

Lemma keeps_recv_err (turns : nat) (h : handle) : keeps P (recv_err turns h).
Proof.
  induction turns as [|n IH]; cbn [recv_err].
  - apply keeps_bind; [apply keeps_try_recv|].
    intros [[m|]|]; try apply keeps_ret. by intros w r w' E.
  - apply keeps_bind; [apply keeps_try_recv|].
    intros [[m|]|]; try apply keeps_ret.
    destruct (hslot h) as [slot|]; [|by intros w r w' E].
    apply keeps_bind; [apply keeps_poll|]. intros _. apply IH.
Qed.

Lemma keeps_awaitFileCreate (name : string) (timeout : Z) :
  keeps P (awaitFileCreate name timeout).
Proof.
  apply keeps_bind; [apply keeps_make_chan|]. intros ch.
  apply keeps_bind; [apply keeps_get|]. intros t.
  apply keeps_bind; [apply keeps_go|]. intros slot. apply keeps_ret.
Qed.

Lemma keeps_awaitFileRemove (name : string) (timeout : Z) :
  keeps P (awaitFileRemove name timeout).
Proof.
  apply keeps_bind; [apply keeps_make_chan|]. intros ch.
  apply keeps_bind; [apply keeps_get|]. intros there. destruct there; simpl.
  - apply keeps_bind; [apply keeps_get|]. intros t.
    apply keeps_bind; [apply keeps_go|]. intros slot. apply keeps_ret.
  - apply keeps_bind; [apply keeps_resolve|]. intros _. apply keeps_ret.
Qed.

Lemma keeps_pollWritable (p : gport) (start : Z) (fname : string) :
  keeps P (pollWritable p start fname).
Proof.
  apply keeps_bind; [apply keeps_get|]. intros there.
  apply keeps_bind.
  - destruct there; [|apply keeps_ret].
    apply keeps_bind; [apply keeps_writeFile|]. intros err. apply keeps_ret.
  - intros ok. destruct ok; [apply keeps_ret|].
    apply keeps_bind; [apply keeps_get|]. intros t. cbv zeta.
    destruct (timelimit - (t - start) <=? pollInterval);
      (apply keeps_bind; [apply keeps_sleep|]; intros _; apply keeps_ret).
Qed.

Lemma keeps_awaitWritable (turns : nat) (p : gport) (start : Z) (fname : string) :
  keeps P (awaitWritable turns p start fname).
Proof.
  induction turns as [|n IH]; cbn [awaitWritable]; [by intros w r w' E|].
  apply keeps_bind; [apply keeps_pollWritable|].
  intros [| |e]; [apply keeps_ret|apply IH|apply keeps_ret].
Qed.

Lemma keeps_Enable (p : gport) : keeps P (Enable p).
Proof.
  apply keeps_bind; [apply keeps_get|]. intros there.
  destruct there; [apply keeps_ret|].
  apply keeps_bind; [apply keeps_writeFile|]. intros [e|]; [apply keeps_ret|].
  apply keeps_bind; [apply keeps_get|]. intros start.
  apply keeps_bind; [apply keeps_awaitFileCreate|]. intros [ch [e|]]; [apply keeps_ret|].
  apply keeps_bind; [apply keeps_recv_err|]. intros [e|]; [apply keeps_ret|].
  cbn [range_err].
  apply keeps_bind; [apply keeps_awaitWritable|]. intros [e|]; [apply keeps_ret|].
  apply keeps_bind; [apply keeps_awaitWritable|]. intros [e|]; apply keeps_ret.
Qed.

Lemma keeps_invoke (h : hook) : keeps P (invoke h).
Proof.
  apply keeps_bind; [apply keeps_emit|]. intros _. destruct h as [k|k].
  - apply keeps_close.
  - apply keeps_bind; [apply keeps_get|]. intros fired.
    destruct fired; [apply keeps_ret|apply keeps_close].
Qed.

Lemma keeps_range_invoke (hs : list hook) : keeps P (range hs invoke).
Proof.
  induction hs as [|h hs IH]; cbn [range]; [apply keeps_ret|].
  apply keeps_bind; [apply keeps_invoke|]. intros _. apply IH.
Qed.

Lemma keeps_Reset_unexport (p : gport) : keeps P (Reset_unexport p).
Proof.
  apply keeps_bind; [apply keeps_writeFile|]. intros [e|]; [apply keeps_ret|].
  apply keeps_bind; [apply keeps_awaitFileRemove|]. intros [ch [e|]]; [apply keeps_ret|].
  apply keeps_recv_err.
Qed.

Lemma keeps_Reset (p : gport) : keeps P (Reset p).
Proof.
  apply keeps_bind; [apply keeps_get|]. intros there.
  destruct there; simpl; [|apply keeps_ret].
  apply keeps_bind; [apply keeps_get|]. intros rs.
  apply keeps_bind; [apply keeps_range_invoke|]. intros _.
  apply keeps_bind; [|intros _; apply keeps_Reset_unexport].
  apply keeps_modify. intros w HP. unfold clear_registry.
  destruct P_stable as (_ & _ & _ & Hlg & Hrs & _). by apply Hlg, Hrs.
Qed.

End Stable.

(** ** What lasts: a file nobody is scheduled to remove *)

Lemma due_ops_spare (path : string) (t : Z) (sc : list (Z * fsop)) :
  forallb (λ e, spares path (snd e)) sc = true →
  forallb (spares path) (snd <$> List.filter (due t) sc) = true.
Proof.
  induction sc as [|e sc IH]; [done|]. simpl. intros H.
  apply andb_prop in H as [H1 H2].
  destruct (due t e); simpl; [rewrite H1|]; by apply IH.
Qed.

Lemma later_ops_spare (path : string) (t : Z) (sc : list (Z * fsop)) :
  forallb (λ e, spares path (snd e)) sc = true →
  forallb (λ e, spares path (snd e)) (List.filter (λ e, negb (due t e)) sc) = true.
Proof.
  induction sc as [|e sc IH]; [done|]. simpl. intros H.
  apply andb_prop in H as [H1 H2].
  destruct (due t e); simpl; [|rewrite H1]; by apply IH.
Qed.

Lemma foldl_apply_keeps (path : string) (ops : list fsop) :
  ∀ fs : gmap string fnode,
    is_Some (fs !! path) →
    forallb (spares path) ops = true →
    is_Some (foldl apply_op fs ops !! path).
Proof.
  induction ops as [|op ops IH]; intros fs Hs H; [done|]. simpl in *.
  apply andb_prop in H as [H1 H2]. apply IH; [|done].
  destruct op as [q n|q]; simpl in *.
  - destruct (decide (q = path)) as [->|Hne].
    + rewrite lookup_insert_eq. eauto.
    + by rewrite lookup_insert_ne.
  - apply negb_true_iff in H1. apply String.eqb_neq in H1.
    by rewrite lookup_delete_ne.
Qed.

Lemma checkFile_is_Some (path : string) (w : world) :
  checkFile path w = true ↔ is_Some (files w !! path).
Proof. unfold checkFile. apply bool_decide_eq_true. Qed.

Lemma settled_stable (path : string) : stable (settled path).
Proof.
  unfold stable, settled. split; [|split; [|split; [|split; [|split]]]].
  - intros d w [H1 H2]. split.
    + apply checkFile_is_Some. unfold sleep_for. simpl.
      apply foldl_apply_keeps; [by apply checkFile_is_Some|].
      by apply due_ops_spare.
    + unfold never_deleted, sleep_for. simpl. by apply later_ops_spare.
  - by intros w cs [H1 H2].
  - by intros w ts [H1 H2].
  - by intros w l [H1 H2].
  - by intros w rs [H1 H2].
  - intros name text w r w' E [H1 H2].
    destruct (writeFile_run name text w)
      as (err & w1 & E1 & _ & _ & Hsc & _ & _ & _ & _ & Hother & Hsame).
    rewrite E1 in E. injection E as _ <-. split.
    + apply checkFile_is_Some. apply checkFile_is_Some in H1.
      destruct (decide (path = name)) as [->|Hne]; [by apply Hsame|].
      by rewrite Hother.
    + unfold never_deleted. by rewrite Hsc.
Qed.

(** ** Enable, step by step *)

Lemma writeFile_error (name text : string) (w w' : world) (e : error) :
  writeFile name text w = Done (Some e) w' → ∃ en, e = PathError name en.
Proof.
  unfold writeFile, emit. rewrite bind_run, modify_run. simpl.
  destruct (files w !! name) as [n|].
  - destruct (wr n text) as [en|]; [|done]. intros [= <- _]. eauto.
  - destruct (creat w name) as [en|]; [|done]. intros [= <- _]. eauto.
Qed.

(** The wait on a poller, with its clock: the receiver gets nil when the
    file is as wanted, and the timeout error no earlier than the deadline;
    either way before a poll interval past the deadline. *)
Lemma recv_err_post (turns : nat) :
  ∀ (ch slot : nat) (name : string) (want : bool) (deadline : Z) (c : nat) (w : world),
    tasks w !! slot = Some (Poller ch name want deadline) →
    chans w !! ch = Some (Chan [] (S c) false) →
    (1 ≤ turns)%nat →
    deadline - now w ≤ (Z.of_nat turns - 1) * pollInterval →
    ∃ r w',
      recv_err turns (Handle ch (Some slot)) w = Done r w'
      ∧ log w' = log w
      ∧ now w ≤ now w'
      ∧ (now w' = now w ∨ now w' < deadline + pollInterval)
      ∧ (r = None ∧ checkFile name w' = want
         ∨ r = Some (Timeout name) ∧ deadline ≤ now w').
Proof.
  induction turns as [|n IH]; intros ch slot name want deadline c w Ht Hc Hn Hd; [lia|].
  simpl. rewrite bind_run. unfold try_recv at 1. rewrite Hc. simpl.
  rewrite bind_run. unfold poll at 1. rewrite Ht.
  assert (Hlt : (ch < length (chans w))%nat) by (by eapply lookup_lt_Some).
  destruct (Bool.eqb (checkFile name w) want) eqn:Hcond.
  - rewrite bind_run, (resolve_run _ _ c) by done. unfold exit. rewrite modify_run.
    rewrite (recv_err_resolved _ _ None (S c)); simpl.
    2:{ by rewrite list_lookup_insert_eq. }
    eexists _, _. split; [reflexivity|]. simpl.
    split; [done|]. split; [lia|]. split; [by left|]. left. split; [done|].
    apply Bool.eqb_prop in Hcond. exact Hcond.
  - destruct (deadline <=? now w) eqn:Hdl.
    + apply Z.leb_le in Hdl.
      rewrite bind_run, (resolve_run _ _ c) by done. unfold exit. rewrite modify_run.
      rewrite (recv_err_resolved _ _ (Some (Timeout name)) (S c)); simpl.
      2:{ by rewrite list_lookup_insert_eq. }
      eexists _, _. split; [reflexivity|]. simpl.
      split; [done|]. split; [lia|]. split; [by left|]. by right.
    + apply Z.leb_gt in Hdl. unfold sleep. rewrite modify_run.
      destruct (sleep_for_frame pollInterval w) as (Hnow & Hch & Hts & Hrs & Hlg).
      destruct (IH ch slot name want deadline c (sleep_for pollInterval w))
        as (r & w' & E & L & T & B & R).
      * by rewrite Hts.
      * by rewrite Hch.
      * destruct n; [|lia]. simpl in Hd. lia.
      * rewrite Hnow. lia.
      * exists r, w'. rewrite E, L, Hlg. split; [done|]. split; [done|].
        split; [lia|]. split; [right; lia|done].
Qed.

(** One pass of the readiness loop, all cases. *)
Lemma pollWritable_post (p : gport) (start : Z) (fname : string)
    (w w1 : world) (v : verdict) :
  pollWritable p start fname w = Done v w1 →
  (∃ k, log w1 = log w ++ replicate k (EvWrite fname " "))
  ∧ match v with
    | StateOK =>
        now w1 = now w ∧ checkFile fname w1 = true
        ∧ log w1 = log w ++ [EvWrite fname " "]
    | Again =>
        now w1 = now w + pollInterval
        ∧ pollInterval < timelimit - (now w - start)
    | GaveUp e =>
        e = NotWritable (sport p) fname
        ∧ now w1 = now w + Z.max (timelimit - (now w - start)) 0
        ∧ timelimit - (now w - start) ≤ pollInterval
    end.
Proof.
  unfold pollWritable. rewrite bind_run, get_run.
  assert (Tail : ∀ u k, now u = now w → log u = log w ++ replicate k (EvWrite fname " ") →
    (t ← time_Now;
     if timelimit - (t - start) <=? pollInterval
     then _ ← sleep (Z.max (timelimit - (t - start)) 0);
          mret (GaveUp (NotWritable (sport p) fname))
     else _ ← sleep pollInterval; mret Again) u = Done v w1 →
    (∃ k, log w1 = log w ++ replicate k (EvWrite fname " "))
    ∧ match v with
      | StateOK =>
          now w1 = now w ∧ checkFile fname w1 = true
          ∧ log w1 = log w ++ [EvWrite fname " "]
      | Again =>
          now w1 = now w + pollInterval
          ∧ pollInterval < timelimit - (now w - start)
      | GaveUp e =>
          e = NotWritable (sport p) fname
          ∧ now w1 = now w + Z.max (timelimit - (now w - start)) 0
          ∧ timelimit - (now w - start) ≤ pollInterval
      end).
  { intros u k Hu Hl. unfold time_Now. rewrite bind_run, get_run, Hu.
    destruct (timelimit - (now w - start) <=? pollInterval) eqn:Hcmp.
    - apply Z.leb_le in Hcmp. unfold sleep. rewrite bind_run, modify_run, ret_run.
      intros [= <- <-].
      destruct (sleep_for_frame (Z.max (timelimit - (now w - start)) 0) u)
        as (-> & _ & _ & _ & ->).
      rewrite Hu. split; [eauto|done].
    - apply Z.leb_gt in Hcmp. unfold sleep. rewrite bind_run, modify_run, ret_run.
      intros [= <- <-].
      destruct (sleep_for_frame pollInterval u) as (-> & _ & _ & _ & ->).
      rewrite Hu. split; [eauto|]. split; [done|lia]. }
  destruct (checkFile fname w) eqn:Hthere.
  - cbn beta iota. rewrite !bind_run.
    destruct (writeFile_run fname " " w)
      as (err & u & E & L & Hn & _ & _ & _ & _ & _ & _ & Hsame).
    rewrite E, ret_run.
    destruct (match err with None => true | Some e => negb (os_IsPermission e) end).
    + rewrite ret_run. intros [= <- <-]. split; [by exists 1%nat|].
      split; [done|]. split; [|done].
      apply checkFile_is_Some, Hsame. by apply checkFile_is_Some.
    + by apply (Tail u 1%nat).
  - cbn beta iota. rewrite bind_run, ret_run. apply (Tail w 0%nat); [done|].
    simpl. by rewrite app_nil_r.
Qed.

(** The readiness loop on one file: it never sleeps past the deadline, it
    answers nil only after a placeholder write that the file took, and it
    gives up no earlier than the deadline. *)
Lemma awaitWritable_post (p : gport) (start : Z) (fname : string) (turns : nat) :
  ∀ (w w' : world) (r : option error),
    awaitWritable turns p start fname w = Done r w' →
    now w ≤ now w'
    ∧ (now w' = now w ∨ now w' ≤ start + timelimit)
    ∧ (∃ k, log w' = log w ++ replicate k (EvWrite fname " "))
    ∧ match r with
      | None =>
          checkFile fname w' = true
          ∧ ∃ k, log w' = log w ++ replicate (S k) (EvWrite fname " ")
      | Some e =>
          e = NotWritable (sport p) fname
          ∧ start + timelimit ≤ now w'
      end.
Proof.
  induction turns as [|n IH]; intros w w' r; cbn [awaitWritable]; [done|].
  rewrite bind_run.
  destruct (pollWritable p start fname w) as [v w1| |] eqn:E; try done.
  destruct (pollWritable_post p start fname w w1 v E) as [[k Lk] Hv].
  destruct v as [| |e].
  - rewrite ret_run. intros [= <- <-]. destruct Hv as (Hn & Hc & L).
    split; [lia|]. split; [by left|]. split; [by exists 1%nat|].
    split; [done|]. by exists 0%nat.
  - destruct Hv as [Hn Hrem]. intros E'.
    destruct (IH w1 w' r E') as (Hm & Hb & [k' Lk'] & Hr).
    split; [lia|]. split; [right; lia|].
    split; [exists (k + k')%nat; by rewrite Lk', Lk, replicate_add, app_assoc|].
    destruct r as [e|]; [done|]. destruct Hr as [Hc [k2 L2]]. split; [done|].
    exists (k + k2)%nat. rewrite L2, Lk.
    replace (S (k + k2)) with (k + S k2)%nat by lia.
    by rewrite replicate_add, app_assoc.
  - rewrite ret_run. intros [= <- <-]. destruct Hv as (-> & Hn & Hrem).
    split; [lia|]. split; [lia|]. split; [by exists k|].
    split; [done|lia].
Qed.

(** Enable on a line that is not claimed, up to the readiness loops. *)
Lemma Enable_steps (p : gport) (w : world) :
  checkFile (folder p) w = false →
  ∃ err w1,
    writeFile (export p) (sport p) w = Done err w1
    ∧ log w1 = log w ++ [EvWrite (export p) (sport p)]
    ∧ now w1 = now w
    ∧ match err with
      | Some e => Enable p w = Done (Some e) w1
      | None =>
          ∃ r w3,
            now w ≤ now w3
            ∧ (now w3 = now w ∨ now w3 < now w + timelimit + pollInterval)
            ∧ log w3 = log w ++ [EvWrite (export p) (sport p); EvGo (length (tasks w))]
            ∧ (r = None ∧ checkFile (folder p) w3 = true
               ∨ r = Some (Timeout (folder p)) ∧ now w + timelimit ≤ now w3)
            ∧ (∀ P, stable P → P w → P w3)
            ∧ Enable p w =
                match r with
                | Some e => Done (Some e) w3
                | None =>
                    range_err [direction p; edge p]
                      (awaitWritable (turns_for timelimit) p (now w)) w3
                end
      end.
Proof.
  intros Hfree.
  destruct (writeFile_run (export p) (sport p) w)
    as (err & w1 & E & L1 & Hn1 & _ & _ & Hc1 & Ht1 & _).
  exists err, w1. split; [done|]. split; [done|]. split; [done|].
  assert (EE : Enable p w =
    (if err is Some e then Done (Some e) w1 else
     (start ← time_Now;
      '(ch, err) ← awaitFileCreate (folder p) timelimit;
      if err is Some e then mret (Some e) else
      err ← recv_err (turns_for timelimit) ch;
      if err is Some e then mret (Some e) else
      range_err [direction p; edge p] (awaitWritable (turns_for timelimit) p start)) w1)).
  { unfold Enable. rewrite bind_run, get_run, Hfree. cbn beta iota.
    rewrite bind_run, E. by destruct err. }
  destruct err as [e|]; [done|].
  destruct (turns_for_enough timelimit) as [Hn Hd]; [done|].
  set (v := with_log (log w1 ++ [EvGo (length (tasks w1))])
              (with_tasks (tasks w1 ++ [Poller (length (chans w1)) (folder p) true
                                          (now w1 + timelimit)])
                 (with_chans (chans w1 ++ [Chan [] 1 false]) w1))).
  destruct (recv_err_post (turns_for timelimit) (length (chans w1))
              (length (tasks w1)) (folder p) true (now w1 + timelimit) 0%nat v)
    as (r & w3 & E3 & L3 & Hmono & Hb & Hr); [| |exact Hn| |].
  - subst v. simpl. apply lookup_snoc.
  - subst v. simpl. apply lookup_snoc.
  - subst v. simpl. lia.
  - exists r, w3. subst v. simpl in *.
    split; [lia|]. split; [lia|].
    split; [by rewrite L3, L1, Ht1, <- app_assoc|].
    split; [destruct Hr as [Hr|[Hr Hr']]; [by left|right; split; [done|lia]]|].
    split.
    + intros P HP Hw.
      eapply (keeps_recv_err P HP); [exact E3|].
      destruct HP as (_ & Hcs & Hts & Hlg & _ & Hwr).
      apply Hlg, Hts, Hcs. by eapply Hwr.
    + rewrite EE. unfold time_Now, awaitFileCreate.
      rewrite bind_run, get_run, !bind_run, make_chan_run. unfold time_Now.
      rewrite bind_run, get_run, bind_run, go_run, ret_run. cbn beta iota.
      rewrite bind_run. simpl. rewrite E3, Hn1. by destruct r.
Qed.

Lemma never_deleted_stable (path : string) :
  stable (λ w, never_deleted path w = true).
Proof.
  unfold stable. split; [|split; [|split; [|split; [|split]]]]; try done.
  - intros d w H. unfold never_deleted, sleep_for. simpl. by apply later_ops_spare.
  - intros name text w r w' E H.
    destruct (writeFile_run name text w) as (err & w1 & E1 & _ & _ & Hsc & _).
    rewrite E1 in E. injection E as _ <-. unfold never_deleted. by rewrite Hsc.
Qed.

(** The two readiness loops of Enable, direction first and edge after it. *)
Lemma Enable_loops (p : gport) (start : Z) (w3 : world) :
  start ≤ now w3 →
  ∃ r w',
    range_err [direction p; edge p] (awaitWritable (turns_for timelimit) p start) w3
      = Done r w'
    ∧ now w3 ≤ now w'
    ∧ (now w' = now w3 ∨ now w' ≤ start + timelimit)
    ∧ (∀ P, stable P → P w3 → P w')
    ∧ match r with
      | None =>
          checkFile (edge p) w' = true
          ∧ ∃ k1 k2,
              log w' = log w3 ++ replicate (S k1) (EvWrite (direction p) " ")
                         ++ replicate (S k2) (EvWrite (edge p) " ")
      | Some e =>
          (e = NotWritable (sport p) (direction p)
           ∨ e = NotWritable (sport p) (edge p))
          ∧ start + timelimit ≤ now w'
      end.
Proof.
  intros Hstart.
  destruct (turns_for_enough timelimit) as [Hn Hd]; [done|].
  cbn [range_err]. rewrite bind_run.
  destruct (awaitWritable_total p start (direction p) (turns_for timelimit) w3)
    as (r1 & w4 & k1 & E4 & _ & _); [done|lia|].
  destruct (awaitWritable_post p start (direction p) _ w3 w4 r1 E4)
    as (Hm4 & Hb4 & _ & Hr4).
  rewrite E4. destruct r1 as [e|].
  { exists (Some e), w4. rewrite ret_run. destruct Hr4 as [-> Hlow].
    split; [done|]. split; [done|]. split; [done|].
    split; [intros P HP; by apply (keeps_awaitWritable P HP _ _ _ _ _ _ _ E4)|].
    split; [by left|done]. }
  destruct Hr4 as [_ [j1 L4]]. rewrite bind_run.
  destruct (awaitWritable_total p start (edge p) (turns_for timelimit) w4)
    as (r2 & w5 & k2 & E5 & _ & _); [done|lia|].
  destruct (awaitWritable_post p start (edge p) _ w4 w5 r2 E5)
    as (Hm5 & Hb5 & _ & Hr5).
  rewrite E5. exists r2, w5.
  split; [by destruct r2|]. split; [lia|]. split; [lia|].
  split.
  { intros P HP Hw. apply (keeps_awaitWritable P HP _ _ _ _ _ _ _ E5).
    by apply (keeps_awaitWritable P HP _ _ _ _ _ _ _ E4). }
  destruct r2 as [e|].
  - destruct Hr5 as [-> Hlow]. split; [by right|done].
  - destruct Hr5 as [Hc [j2 L5]]. split; [done|]. exists j1, j2.
    by rewrite L5, L4, <- app_assoc.
Qed.

(** ** Enable: how long, and with which errors *)

(** X1. Enable always returns, and does so before the time limit plus one
    poll interval has gone by since the call.  When it fails, the error is
    the refusal of the claim request, raised at once; or the waiter's
    timeout on the line directory, raised no earlier than the time limit; or
    the not-yet-writable error on the direction or the edge file, which the
    readiness loop returns only once the timer of the remaining budget has
    expired: no earlier than the time limit either. *)
Theorem Enable_deadline (p : gport) (w : world) :
  match Enable p w with
  | Done r w' =>
      now w ≤ now w' ∧ now w' < now w + timelimit + pollInterval
      ∧ match r with
        | None => True
        | Some e =>
            (∃ en, e = PathError (export p) en ∧ now w' = now w)
            ∨ (e = Timeout (folder p) ∧ now w + timelimit ≤ now w')
            ∨ ((e = NotWritable (sport p) (direction p)
                ∨ e = NotWritable (sport p) (edge p))
               ∧ now w + timelimit ≤ now w')
        end
  | _ => False
  end.
Proof.
  assert (Hpos : 0 < timelimit) by done.
  destruct (checkFile (folder p) w) eqn:Hthere.
  { unfold Enable. rewrite bind_run, get_run, Hthere. simpl. lia. }
  destruct (Enable_steps p w Hthere) as (err & w1 & E1 & _ & Hn1 & H).
  destruct err as [e|].
  { rewrite H. split; [lia|]. split; [lia|]. left.
    destruct (writeFile_error _ _ _ _ _ E1) as [en ->]. eauto. }
  destruct H as (r & w3 & Hm3 & Hb3 & _ & Hr & _ & ->).
  destruct r as [e|].
  { destruct Hr as [[Hr _]|[Hr Hlow]]; [done|]. injection Hr as ->.
    split; [lia|]. split; [lia|]. right; left. done. }
  destruct (Enable_loops p (now w) w3 Hm3) as (r & w' & -> & Hm & Hb & _ & Hr').
  split; [lia|]. split; [lia|].
  destruct r as [e|]; [|done]. destruct Hr' as [He Hlow]. right; right. done.
Qed.

(** ** Enable twice *)

Lemma writes_to_app (path : string) (l k : list event) :
  writes_to path (l ++ k) = (writes_to path l + writes_to path k)%nat.
Proof. unfold writes_to. by rewrite List.filter_app, length_app. Qed.

Lemma writes_to_replicate_other (path other text : string) (k : nat) :
  other ≠ path → writes_to path (replicate k (EvWrite other text)) = 0%nat.
Proof.
  intros Hne. unfold writes_to. induction k as [|k IH]; [done|]. simpl.
  apply String.eqb_neq in Hne. by rewrite Hne.
Qed.

(** X2. Claiming a free line whose directory nobody removes again: when
    Enable returns nil, the line directory and the edge file are there
    (IsEnabled answers true), the
    claim request was written exactly once, the direction file and after it
    the edge file each took at least one placeholder write, and a second
    Enable returns nil at once and leaves the world alone. *)
Theorem Enable_then_Enable (p : gport) (w : world) :
  checkFile (folder p) w = false →
  never_deleted (folder p) w = true →
  direction p ≠ export p →
  edge p ≠ export p →
  match Enable p w with
  | Done None w' =>
      IsEnabled p w' = Done true w'
      ∧ checkFile (edge p) w' = true
      ∧ Enable p w' = Done None w'
      ∧ writes_to (export p) (log w') = S (writes_to (export p) (log w))
      ∧ ∃ k1 k2,
          log w' = log w ++ EvWrite (export p) (sport p) :: EvGo (length (tasks w))
                     :: replicate (S k1) (EvWrite (direction p) " ")
                     ++ replicate (S k2) (EvWrite (edge p) " ")
  | Done (Some _) _ => True
  | _ => False
  end.
Proof.
  intros Hfree Hnd Hd He.
  destruct (Enable_steps p w Hfree) as (err & w1 & E1 & _ & Hn1 & H).
  destruct err as [e|]; [by rewrite H|].
  destruct H as (r & w3 & Hm3 & _ & L3 & Hr & Hst & ->).
  destruct r as [e|]; [done|].
  destruct Hr as [[_ Hdir]|[Hr _]]; [|done].
  destruct (Enable_loops p (now w) w3 Hm3) as (r & w' & -> & _ & _ & Hst' & Hr').
  destruct r as [e|]; [done|]. destruct Hr' as [Hedge (k1 & k2 & L)].
  assert (Hset : settled (folder p) w').
  { apply (Hst' _ (settled_stable (folder p))). split; [done|].
    by apply (Hst _ (never_deleted_stable (folder p))). }
  destruct Hset as [Hf _].
  split; [unfold IsEnabled; by rewrite get_run, Hf|]. split; [done|].
  split; [unfold Enable; by rewrite bind_run, get_run, Hf|].
  split.
  - rewrite L, L3, !writes_to_app, !writes_to_replicate_other by done.
    unfold writes_to. simpl. rewrite String.eqb_refl. simpl. lia.
  - exists k1, k2. rewrite L, L3, <- !app_assoc. by simpl.
Qed.

(** ** Reset: how it ends *)

Lemma invoke_frame (h : hook) (w : world) :
  match invoke h w with
  | Done _ w1 =>
      now w1 = now w ∧ files w1 = files w ∧ script w1 = script w
      ∧ resetters w1 = resetters w ∧ tasks w1 = tasks w
  | Panic _ _ => True
  | Starved => False
  end.
Proof.
  unfold invoke, emit. rewrite bind_run, modify_run. destruct h as [k|k].
  - unfold close. simpl. destruct (chans w !! k) as [c|]; [|done].
    by destruct (closed c).
  - rewrite bind_run, get_run.
    match goal with |- context [recv_ready k ?u] => destruct (recv_ready k u) end;
      [by rewrite ret_run|].
    unfold close. simpl. destruct (chans w !! k) as [c|]; [|done].
    by destruct (closed c).
Qed.

Lemma range_invoke_frame (hs : list hook) :
  ∀ w : world,
    match range hs invoke w with
    | Done _ w1 =>
        now w1 = now w ∧ files w1 = files w ∧ script w1 = script w
        ∧ resetters w1 = resetters w ∧ tasks w1 = tasks w
    | Panic _ _ => True
    | Starved => False
    end.
Proof.
  induction hs as [|h hs IH]; intros w; cbn [range]; [done|].
  rewrite bind_run. pose proof (invoke_frame h w) as Hh.
  destruct (invoke h w) as [[] w1| |]; try done.
  destruct Hh as (Hn & Hf & Hs & Hr & Ht). specialize (IH w1).
  destruct (range hs invoke w1) as [[] w2| |]; try done.
  destruct IH as (Hn' & Hf' & Hs' & Hr' & Ht').
  by rewrite Hn', Hf', Hs', Hr', Ht'.
Qed.

(** Reset from the release request on, with its clock and its errors. *)
Lemma Reset_unexport_post (p : gport) (w : world) :
  ∃ r w',
    Reset_unexport p w = Done r w'
    ∧ resetters w' = resetters w
    ∧ now w ≤ now w' ∧ now w' < now w + timelimit + pollInterval
    ∧ match r with
      | None => checkFile (folder p) w' = false
      | Some e =>
          (∃ en, e = PathError (unexport p) en ∧ now w' = now w)
          ∨ (e = Timeout (folder p) ∧ now w + timelimit ≤ now w')
      end.
Proof.
  assert (Hpos : 0 < timelimit) by done.
  unfold Reset_unexport. rewrite bind_run.
  destruct (writeFile_run (unexport p) (sport p) w)
    as (err & w1 & E & L & Hnow & _ & _ & Hch & Hts & Hrs & _).
  rewrite E. destruct err as [e|].
  { exists (Some e), w1. rewrite ret_run, Hrs, Hnow.
    split; [done|]. split; [done|]. split; [lia|]. split; [lia|]. left.
    destruct (writeFile_error _ _ _ _ _ E) as [en ->]. eauto. }
  rewrite bind_run. unfold awaitFileRemove.
  rewrite bind_run, make_chan_run, bind_run, get_run.
  replace (checkFile (folder p) (with_chans (chans w1 ++ [Chan [] 1 false]) w1))
    with (checkFile (folder p) w1) by reflexivity.
  destruct (checkFile (folder p) w1) eqn:Hthere; simpl.
  - destruct (turns_for_enough timelimit) as [Hn Hd]; [done|].
    match goal with
    | |- context [recv_err _ _ ?v] =>
        destruct (recv_err_post (turns_for timelimit) (length (chans w1))
                    (length (tasks w1)) (folder p) false (now w1 + timelimit) 0%nat v)
          as (r & w' & E' & L' & Hm & Hb & Hr);
          [simpl; apply lookup_snoc|simpl; apply lookup_snoc|exact Hn|simpl; lia|];
        destruct (recv_err_total (turns_for timelimit) (length (chans w1))
                    (length (tasks w1)) (folder p) false (now w1 + timelimit) 0%nat v)
          as (r0 & w0 & E0 & _ & R0 & _);
          [simpl; apply lookup_snoc|simpl; apply lookup_snoc|exact Hn|simpl; lia|]
    end.
    rewrite E' in E0. injection E0 as <- <-.
    exists r, w'. simpl in *. rewrite E'. split; [done|].
    split; [by rewrite R0|].
    split; [lia|]. split; [lia|].
    destruct Hr as [[-> Hgone]|[-> Hlate]]; [done|]. right. split; [done|lia].
  - rewrite bind_run, (resolve_run _ _ 0%nat) by (simpl; apply lookup_snoc).
    rewrite ret_run.
    rewrite (recv_err_resolved _ _ None 1%nat).
    2:{ simpl. rewrite insert_snoc. apply lookup_snoc. }
    eexists _, _. split; [reflexivity|]. simpl.
    split; [done|]. split; [lia|]. split; [lia|]. exact Hthere.
Qed.

(** X3. How Reset ends.  It returns before the time limit plus one poll
    interval has gone by, unless a hook panics, which takes a registry that
    SetValues and Values cannot have left.  If the line was claimed, the
    registry is empty when Reset returns, also when it returns an error.
    When Reset returns nil the line directory is gone (IsEnabled answers
    false), and a further Reset returns nil at once and changes nothing.  When it returns an error, the
    error is the refusal of the release request, or the waiter's timeout on
    the line directory, raised no earlier than the time limit. *)
Theorem Reset_outcome (p : gport) (w : world) :
  match Reset p w with
  | Done r w' =>
      now w ≤ now w' ∧ now w' < now w + timelimit + pollInterval
      ∧ (checkFile (folder p) w = true → resetters w' = [])
      ∧ match r with
        | None => IsEnabled p w' = Done false w' ∧ Reset p w' = Done None w'
        | Some e =>
            (∃ en, e = PathError (unexport p) en ∧ now w' = now w)
            ∨ (e = Timeout (folder p) ∧ now w + timelimit ≤ now w')
        end
  | Panic _ _ => hooks_ok w = false
  | Starved => False
  end.
Proof.
  assert (Hpos : 0 < timelimit) by done.
  assert (Again : ∀ u, checkFile (folder p) u = false → Reset p u = Done None u).
  { intros u Hu. unfold Reset. by rewrite bind_run, get_run, Hu. }
  destruct (checkFile (folder p) w) eqn:Hthere.
  2:{ rewrite (Again w Hthere). split; [lia|]. split; [lia|]. split; [done|].
      split; [unfold IsEnabled; by rewrite get_run, Hthere|]. by apply Again. }
  assert (ER : Reset p w =
    match range (resetters w) invoke w with
    | Done _ w1 => Reset_unexport p (clear_registry w1)
    | Panic why w1 => Panic why w1
    | Starved => Starved
    end).
  { unfold Reset. rewrite bind_run, get_run, Hthere. simpl.
    rewrite bind_run, get_run, bind_run.
    by destruct (range (resetters w) invoke w). }
  rewrite ER. pose proof (range_invoke_frame (resetters w) w) as Hfr.
  destruct (range (resetters w) invoke w) as [[] w1|why w1|] eqn:Erange; [| |done].
  - destruct Hfr as (Hn1 & _).
    destruct (Reset_unexport_post p (clear_registry w1))
      as (r & w' & -> & Hrs & Hm & Hb & Hr).
    simpl in *. split; [lia|]. split; [lia|]. split; [done|].
    destruct r as [e|].
    + destruct Hr as [(en & -> & Hn)|[-> Hlate]]; [left|right].
      * exists en. split; [done|lia].
      * split; [done|lia].
    + split; [unfold IsEnabled; by rewrite get_run, Hr|]. by apply Again.
  - destruct (hooks_ok w) eqn:Hok; [|done].
    destruct (Reset_run p w Hthere Hok) as (u & _ & _ & _ & Eu & _).
    rewrite Eu in Erange. done.
Qed.

(** ** The guard of the accessors *)

(** X4. On a line that is not claimed every accessor returns the
    not-enabled error of that line and leaves the world exactly as it was:
    no file is written, no channel made, no goroutine started, no hook
    registered.  This holds for SetMode, IsOutput, Value, SetValue,
    SetValues and Values, and for the accessors of the earlier version;
    only its stub of Values has no guard and answers (nil, nil). *)
Theorem disabled_line_guard (p : gport) (w : world) :
  checkFile (folder p) w = false →
  let gone := Some (NotEnabled (port p)) in
  (∀ mode, SetMode p mode w = Done gone w)
  ∧ IsOutput p w = Done (false, gone) w
  ∧ Value p w = Done (false, gone) w
  ∧ (∀ v, SetValue p v w = Done gone w)
  ∧ (∀ ch, SetValues p ch w = Done (None, gone) w)
  ∧ (∀ buffersize, Values p buffersize w = Done (None, gone) w)
  ∧ (∀ mode, Simple.SetMode p mode w = Done gone w)
  ∧ Simple.IsOutput p w = Done (false, gone) w
  ∧ Simple.Value p w = Done (false, gone) w
  ∧ (∀ v, Simple.SetValue p v w = Done gone w)
  ∧ Simple.Values p w = Done (None, None) w.
Proof.
  intros Hfree gone.
  assert (G : checkEnabled p w = Done gone w) by (by rewrite checkEnabled_run, Hfree).
  assert (G' : Simple.checkEnabled p w = Done gone w).
  { unfold Simple.checkEnabled. by rewrite bind_run, get_run, Hfree. }
  unfold SetMode, IsOutput, Value, SetValue, SetValues, Values,
    Simple.SetMode, Simple.IsOutput, Simple.Value, Simple.SetValue.
  repeat split; intros; rewrite ?bind_run, ?G, ?G'; reflexivity.
Qed.

(** ** Writing and reading back *)

Lemma writeFile_stores (name text : string) (w w' : world) :
  writeFile name text w = Done None w' →
  ∃ n',
    files w' !! name = Some n' ∧ data n' = text
    ∧ rd n' = match files w !! name with Some n => rd n | None => None end.
Proof.
  unfold writeFile, emit. rewrite bind_run, modify_run. simpl.
  destruct (files w !! name) as [n|].
  - destruct (wr n text); [done|]. intros [= <-]. simpl.
    rewrite lookup_insert_eq. by eexists.
  - destruct (creat w name); [done|]. intros [= <-]. simpl.
    rewrite lookup_insert_eq. by eexists.
Qed.

Lemma writeFile_refused (name text : string) (w w' : world) (e : error) :
  writeFile name text w = Done (Some e) w' → files w' = files w.
Proof.
  unfold writeFile, emit. rewrite bind_run, modify_run. simpl.
  destruct (files w !! name) as [n|].
  - destruct (wr n text); [|done]. by intros [= _ <-].
  - destruct (creat w name); [|done]. by intros [= _ <-].
Qed.

Lemma writeFile_keeps_file (name text other : string) (w w' : world) (r : option error) :
  writeFile name text w = Done r w' →
  checkFile other w = true → checkFile other w' = true.
Proof.
  intros E H.
  destruct (writeFile_run name text w)
    as (err & w1 & E1 & _ & _ & _ & _ & _ & _ & _ & Hother & Hsame).
  rewrite E1 in E. injection E as _ <-.
  apply checkFile_is_Some. apply checkFile_is_Some in H.
  destruct (decide (other = name)) as [->|Hne]; [by apply Hsame|].
  by rewrite Hother.
Qed.

(** X5. SetValue and Value.  On a claimed line whose value file can be
    read, SetValue always returns; when it returns nil, Value afterwards
    answers the value that was set, without error; when it returns an error
    no file has changed.  The earlier version does the same. *)
Theorem SetValue_then_Value (p : gport) (v : bool) (w : world) :
  checkFile (folder p) w = true →
  (∀ n, files w !! value p = Some n → rd n = None) →
  Simple.SetValue p v w = SetValue p v w
  ∧ match SetValue p v w with
    | Done None w' =>
        Value p w' = Done (v, None) w'
        ∧ Simple.Value p w' = Done (v, None) w'
    | Done (Some _) w' => files w' = files w
    | _ => False
    end.
Proof.
  intros Hen Hrd. split; [reflexivity|].
  unfold SetValue. rewrite bind_run, checkEnabled_run, Hen. cbn beta iota.
  unfold writeValue.
  destruct (writeFile (value p) (if v then high else low) w) as [err w'| |] eqn:E.
  2,3: destruct (writeFile_run (value p) (if v then high else low) w)
         as (? & ? & E' & _); by rewrite E' in E.
  destruct err as [e|]; [by eapply writeFile_refused|].
  destruct (writeFile_stores _ _ _ _ E) as (n' & Hn' & Hdata & Hread).
  assert (Hen' : checkFile (folder p) w' = true) by (by eapply writeFile_keeps_file).
  assert (Hrd' : rd n' = None).
  { rewrite Hread. destruct (files w !! value p) as [n|] eqn:En; [|done]. by apply Hrd. }
  assert (R : readFile (value p) w' = Done (if v then high else low, None) w').
  { unfold readFile. by rewrite Hn', Hrd', Hdata. }
  split.
  - unfold Value, readValue. rewrite bind_run, checkEnabled_run, Hen'. cbn beta iota.
    rewrite bind_run, R. by destruct v.
  - unfold Simple.Value, Simple.checkEnabled, Simple.readValue.
    rewrite bind_run, bind_run, get_run, Hen'. cbn beta iota.
    rewrite ret_run, bind_run, R. by destruct v.
Qed.

(** X6. SetMode and IsOutput.  On a claimed line whose direction file can
    be read, SetMode always returns; when it returns nil, IsOutput afterwards
    answers without error, false after GPIOInput and true after each of the
    three output modes; when SetMode returns an error no file has changed. *)
Theorem SetMode_then_IsOutput (p : gport) (mode : Z) (w : world) :
  checkFile (folder p) w = true →
  (∀ n, files w !! direction p = Some n → rd n = None) →
  match SetMode p mode w with
  | Done None w' =>
      0 ≤ mode ≤ 3
      ∧ IsOutput p w' = Done (negb (mode =? GPIOInput), None) w'
      ∧ Simple.IsOutput p w' = Done (negb (mode =? GPIOInput), None) w'
  | Done (Some _) w' => files w' = files w
  | _ => False
  end.
Proof.
  intros Hen Hrd.
  assert (W : ∀ text : string,
    negb (String.eqb text "in") = negb (mode =? GPIOInput) → 0 ≤ mode ≤ 3 →
    match writeFile (direction p) text w with
    | Done None w' =>
        0 ≤ mode ≤ 3
        ∧ IsOutput p w' = Done (negb (mode =? GPIOInput), None) w'
        ∧ Simple.IsOutput p w' = Done (negb (mode =? GPIOInput), None) w'
    | Done (Some _) w' => files w' = files w
    | _ => False
    end).
  { intros text Htext Hmode.
    destruct (writeFile (direction p) text w) as [err w'| |] eqn:E.
    2,3: destruct (writeFile_run (direction p) text w) as (? & ? & E' & _);
           by rewrite E' in E.
    destruct err as [e|]; [by eapply writeFile_refused|].
    destruct (writeFile_stores _ _ _ _ E) as (n' & Hn' & Hdata & Hread).
    assert (Hen' : checkFile (folder p) w' = true) by (by eapply writeFile_keeps_file).
    assert (Hrd' : rd n' = None).
    { rewrite Hread. destruct (files w !! direction p) as [n|] eqn:En; [|done].
      by apply Hrd. }
    assert (R : readFile (direction p) w' = Done (text, None) w').
    { unfold readFile. by rewrite Hn', Hrd', Hdata. }
    split; [done|]. split.
    - unfold IsOutput, readDirection. rewrite bind_run, checkEnabled_run, Hen'.
      cbn beta iota. by rewrite bind_run, R, Htext.
    - unfold Simple.IsOutput, Simple.checkEnabled, Simple.readDirection.
      rewrite bind_run, bind_run, get_run, Hen'. cbn beta iota.
      by rewrite ret_run, bind_run, R, Htext. }
  unfold SetMode. rewrite bind_run, checkEnabled_run, Hen. cbn beta iota.
  unfold writeDirection, GPIOInput, GPIOOutput, GPIOOutputHigh, GPIOOutputLow,
    direction_in, direction_out, direction_outhi, direction_outlow in *.
  destruct (mode =? 0) eqn:M0.
  { apply Z.eqb_eq in M0. subst mode. by apply W. }
  destruct (mode =? 1) eqn:M1.
  { apply Z.eqb_eq in M1. subst mode. by apply W. }
  destruct (mode =? 3) eqn:M3.
  { apply Z.eqb_eq in M3. subst mode. by apply W. }
  destruct (mode =? 2) eqn:M2.
  { apply Z.eqb_eq in M2. subst mode. by apply W. }
  by rewrite ret_run.
Qed.

(** ** The paths of a port *)

Local Arguments String.append !_ _ / : simpl nomatch.

Lemma append_nil_r (s : string) : s +:+ "" = s.
Proof. induction s as [|c s IH]; [done|]. simpl. by rewrite IH. Qed.

Lemma append_assoc (a b c : string) : (a +:+ b) +:+ c = a +:+ (b +:+ c).
Proof. induction a as [|x a IH]; [done|]. simpl. by rewrite IH. Qed.

Lemma no_slash_pretty_N_go (x : N) :
  ∀ s, no_slash s = true → no_slash (pretty_N_go x s) = true.
Proof.
  induction (N.lt_wf_0 x) as [x _ IH]; intros s Hs.
  assert (x = 0 ∨ 0 < x)%N as [->|Hx] by lia; [by rewrite pretty_N_go_0|].
  rewrite pretty_N_go_step by done. apply IH; [by apply N.div_lt|].
  simpl. rewrite Hs. unfold pretty_N_char. by repeat case_match.
Qed.

Lemma no_slash_pretty (n : Z) : no_slash (pretty n) = true.
Proof.
  assert (HN : ∀ x : N, no_slash (pretty x) = true).
  { intros x. unfold pretty, pretty_N. case_decide; [done|].
    by apply no_slash_pretty_N_go. }
  unfold pretty, pretty_Z. destruct n as [|x|x]; [done|apply HN|].
  simpl. apply HN.
Qed.

Lemma segment_inj (h1 : string) :
  ∀ h2 t1 t2,
    no_slash h1 = true → no_slash h2 = true →
    tail_ok t1 = true → tail_ok t2 = true →
    h1 +:+ t1 = h2 +:+ t2 → h1 = h2 ∧ t1 = t2.
Proof.
  induction h1 as [|c1 h1 IH]; intros [|c2 h2] t1 t2 N1 N2 T1 T2 E; simpl in *.
  - done.
  - subst t1. simpl in T1. apply andb_prop in N2 as [N2 _].
    by rewrite T1 in N2.
  - subst t2. simpl in T2. apply andb_prop in N1 as [N1 _].
    by rewrite T2 in N1.
  - injection E as -> E. apply andb_prop in N1 as [_ N1].
    apply andb_prop in N2 as [_ N2].
    destruct (IH h2 t1 t2 N1 N2 T1 T2 E) as [-> ->]. done.
Qed.

Lemma path_inj (d h1 t1 h2 t2 : string) :
  no_slash h1 = true → no_slash h2 = true →
  tail_ok t1 = true → tail_ok t2 = true →
  d +:+ String "/"%char (h1 +:+ t1) = d +:+ String "/"%char (h2 +:+ t2) →
  h1 = h2 ∧ t1 = t2.
Proof.
  intros N1 N2 T1 T2 E. apply String.app_inj in E. injection E as E.
  by apply segment_inj.
Qed.

(** The six paths of a port, each as the directory it was made for, a
    separator, one component, and what follows it. *)
Lemma newGPIO_fields (d : string) (n : Z) :
  let p := newGPIO d n in
  let g := "gpio" +:+ pretty n in
  export p = d +:+ String "/"%char ("export" +:+ "")
  ∧ unexport p = d +:+ String "/"%char ("unexport" +:+ "")
  ∧ folder p = d +:+ String "/"%char (g +:+ "")
  ∧ value p = d +:+ String "/"%char (g +:+ "/value")
  ∧ direction p = d +:+ String "/"%char (g +:+ "/direction")
  ∧ edge p = d +:+ String "/"%char (g +:+ "/edge").
Proof.
  unfold newGPIO, filepath_Join. cbn [export unexport folder value direction edge].
  rewrite !append_assoc, !append_nil_r. by simpl.
Qed.

Lemma no_slash_gpio (n : Z) : no_slash ("gpio" +:+ pretty n) = true.
Proof. simpl. apply no_slash_pretty. Qed.

Lemma gpio_inj (n1 n2 : Z) : "gpio" +:+ pretty n1 = "gpio" +:+ pretty n2 → n1 = n2.
Proof. intros E. apply String.app_inj in E. by apply pretty_Z_inj in E. Qed.

Ltac path_neq :=
  let E := fresh "E" in
  intros E;
  apply path_inj in E;
    [ destruct E as [? ?]; simplify_eq/=
    | first [apply no_slash_gpio | reflexivity] ..].

(** X7. The six paths newGPIO derives for a line are pairwise different,
    whatever the root directory and the line number: no control file of a
    port is mistaken for another. *)
Theorem newGPIO_paths_differ (d : string) (n : Z) :
  let p := newGPIO d n in
  NoDup [export p; unexport p; folder p; value p; direction p; edge p].
Proof.
  cbv zeta. pose proof (newGPIO_fields d n) as H. cbv zeta in H.
  destruct H as (-> & -> & -> & -> & -> & ->).
  repeat (apply NoDup_cons; split;
          [rewrite ?not_elem_of_cons; repeat split;
             first [apply not_elem_of_nil | path_neq] |]).
  apply NoDup_nil_2.
Qed.

(** X8. The paths of two ports made for different lines under one root:
    the claim-request path is the same for both, and so is the
    release-request path; the directory and the three control files of one
    line are none of the six paths of the other.  (A statement about paths
    only: the registry of hooks is a field of each port in the source, and
    the world of this development follows the registry of one port.) *)
Theorem newGPIO_lines_apart (d : string) (n1 n2 : Z) :
  n1 ≠ n2 →
  let p1 := newGPIO d n1 in
  let p2 := newGPIO d n2 in
  export p1 = export p2
  ∧ unexport p1 = unexport p2
  ∧ ∀ x y,
      x ∈ [folder p1; value p1; direction p1; edge p1] →
      y ∈ [export p2; unexport p2; folder p2; value p2; direction p2; edge p2] →
      x ≠ y.
Proof.
  cbv zeta. intros Hne. split; [done|]. split; [done|]. intros x y Hx Hy.
  pose proof (newGPIO_fields d n1) as H1. cbv zeta in H1.
  pose proof (newGPIO_fields d n2) as H2. cbv zeta in H2.
  destruct H1 as (_ & _ & F1 & V1 & D1 & E1).
  destruct H2 as (X2 & U2 & F2 & V2 & D2 & E2).
  rewrite F1, V1, D1, E1 in Hx. rewrite X2, U2, F2, V2, D2, E2 in Hy.
  repeat (apply elem_of_cons in Hx as [->|Hx]);
    [..|by apply elem_of_nil in Hx];
    repeat (apply elem_of_cons in Hy as [->|Hy]);
    try (by apply elem_of_nil in Hy);
    path_neq; try done;
    match goal with H : _ +:+ pretty _ = _ +:+ pretty _ |- _ =>
      apply String.app_inj, pretty_Z_inj in H; done end.
Qed.

(** X9. On a port made by newGPIO, SetValue writes the value file and no
    other: whatever SetValue answers, IsOutput answers afterwards what it
    answered before. *)
Theorem SetValue_spares_direction (d : string) (n : Z) (v : bool) (w : world) :
  let p := newGPIO d n in
  match SetValue p v w with
  | Done _ w' =>
      answer (IsOutput p w') = answer (IsOutput p w)
      ∧ ∀ other, other ≠ value p → files w' !! other = files w !! other
  | _ => False
  end.
Proof.
  cbv zeta. set (p := newGPIO d n).
  assert (Hvf : value p ≠ folder p ∧ value p ≠ direction p).
  { pose proof (newGPIO_fields d n) as H. cbv zeta in H. fold p in H.
    destruct H as (_ & _ & -> & -> & -> & _). split; path_neq. }
  destruct Hvf as [Hvf Hvd].
  unfold SetValue. rewrite bind_run, checkEnabled_run.
  destruct (checkFile (folder p) w) eqn:Hen; [|done].
  cbn beta iota. unfold writeValue.
  destruct (writeFile_run (value p) (if v then high else low) w)
    as (err & w' & E & _ & _ & _ & _ & _ & _ & _ & Hother & _).
  rewrite E. split; [|exact Hother].
  assert (Hen' : checkFile (folder p) w' = true).
  { unfold checkFile in *. by rewrite Hother. }
  unfold IsOutput, readDirection, readFile.
  rewrite !bind_run, !checkEnabled_run, Hen, Hen'. cbn beta iota.
  rewrite !bind_run, Hother by done.
  destruct (files w !! direction p) as [nd|]; [|done]. by destruct (rd nd).
Qed.

(** ** Streams: cancellation and release *)

Lemma SetValue_log (p : gport) (v : bool) (w w2 : world) (err : option error) :
  SetValue p v w = Done err w2 →
  (writes_to (value p) (log w2) ≤ S (writes_to (value p) (log w)))%nat
  ∧ (checkFile (folder p) w = false → w2 = w).
Proof.
  unfold SetValue. rewrite bind_run, checkEnabled_run.
  destruct (checkFile (folder p) w).
  - cbn beta iota. unfold writeValue. intros E.
    destruct (writeFile_run (value p) (if v then high else low) w)
      as (err' & w' & E' & L & _).
    rewrite E' in E. injection E as _ <-. split; [|done].
    rewrite L, writes_to_app. unfold writes_to at 2. simpl.
    rewrite String.eqb_refl. simpl. lia.
  - cbn beta iota. rewrite ret_run. intros [= _ <-]. split; [lia|done].
Qed.

Lemma setter_return_done (slot errch c : nat) (w : world) :
  chans w !! errch = Some (Chan [] (S c) false) →
  (slot < length (tasks w))%nat →
  ∃ w',
    setter_return slot errch w = Done tt w'
    ∧ tasks w' !! slot = Some Exited
    ∧ chans w' !! errch = Some (Chan [] (S c) true)
    ∧ resetters w' = resetters w ∧ log w' = log w ∧ files w' = files w.
Proof.
  intros He Hs. rewrite (setter_return_run slot errch [] (S c)) by done.
  eexists. split; [reflexivity|]. simpl.
  rewrite !list_lookup_insert_eq; [done|by eapply lookup_lt_Some|done].
Qed.

(** X11. A cancelled stream stops.  Once the killer channel is closed, the
    goroutine of SetValues has returned after one turn more than there are
    values left in its input queue, whatever the select picks when both
    cases are ready; its error channel is closed, the registry is as it
    was, and it has written the value file at most once per queued value. *)
Theorem cancelled_stream_stops (p : gport) (inp killer errch slot c : nat)
    (ms : list msg) :
  ∀ (picks : list bool) (w : world) (ci : nat) (cl : bool),
    length picks = S (length ms) →
    tasks w !! slot = Some (Setter p inp killer errch) →
    chans w !! errch = Some (Chan [] (S c) false) →
    chans w !! inp = Some (Chan ms ci cl) →
    recv_ready killer w = true →
    inp ≠ errch → killer ≠ inp → killer ≠ errch →
    ∃ w',
      setter_run picks slot w = Done tt w'
      ∧ tasks w' !! slot = Some Exited
      ∧ (∃ b, chans w' !! errch = Some (Chan b (S c) true))
      ∧ resetters w' = resetters w
      ∧ (writes_to (value p) (log w')
         ≤ writes_to (value p) (log w) + length ms)%nat.
Proof.
  induction ms as [|m rest IH]; intros picks w ci cl Hlen Ht He Hi Hk Hne1 Hne2 Hne3;
    destruct picks as [|pick picks]; try done; simpl in Hlen;
    assert (Hslot : (slot < length (tasks w))%nat) by (by eapply lookup_lt_Some);
    assert (Herr : (errch < length (chans w))%nat) by (by eapply lookup_lt_Some);
    assert (Hinp : (inp < length (chans w))%nat) by (by eapply lookup_lt_Some);
    cbn [setter_run]; rewrite bind_run.
  - assert (ET : setter_turn pick slot w = setter_return slot errch w).
    { destruct cl.
      - destruct pick.
        + apply (setter_turn_kill _ _ p inp killer); auto.
        + rewrite (setter_turn_input _ _ p inp killer errch); auto.
          * unfold setter_input. rewrite bind_run. unfold try_recv. by rewrite Hi.
          * unfold recv_ready. by rewrite Hi.
      - apply (setter_turn_kill _ _ p inp killer); auto.
        left. unfold recv_ready. by rewrite Hi. }
    destruct (setter_return_done slot errch c w He Hslot) as (w' & E & T & C & R & L & _).
    rewrite ET, E. exists w'. rewrite (setter_run_exited _ _ _ T).
    split; [done|]. split; [done|]. split; [eauto|]. split; [done|].
    rewrite L. lia.
  - destruct pick.
    + destruct (setter_return_done slot errch c w He Hslot) as (w' & E & T & C & R & L & _).
      rewrite (setter_turn_kill _ _ p inp killer errch) by auto.
      rewrite E. exists w'. rewrite (setter_run_exited _ _ _ T).
      split; [done|]. split; [done|]. split; [eauto|]. split; [done|].
      rewrite L. lia.
    + destruct (setter_turn_value p inp killer errch slot c w m rest ci cl false)
        as (err & w2 & E & ET & Hc & Hts); try done; [by right|].
      destruct (SetValue_log _ _ _ _ _ E) as [Hw _].
      destruct (SetValue_run p (as_bool m) w) as (err' & w2' & E' & _ & _ & Hrs & _).
      rewrite E' in E. injection E as -> ->.
      rewrite ET. destruct err as [e|].
      * eexists. rewrite setter_run_exited.
        2:{ simpl. by rewrite list_lookup_insert_eq. }
        split; [reflexivity|]. simpl.
        split; [by rewrite list_lookup_insert_eq|].
        split; [eexists; rewrite list_lookup_insert_eq; [done|by rewrite length_insert]|].
        split; [done|]. lia.
      * cbv zeta. set (cs := <[inp := Chan rest ci cl]> (chans w)).
        destruct (IH picks (with_chans cs w2) ci cl) as (w' & ER & T & C & R & Wb).
        -- lia.
        -- simpl. by rewrite Hts.
        -- simpl. subst cs. by rewrite list_lookup_insert_ne.
        -- simpl. subst cs. by rewrite list_lookup_insert_eq.
        -- unfold recv_ready in *. simpl. subst cs.
           by rewrite list_lookup_insert_ne.
        -- done.
        -- done.
        -- done.
        -- exists w'. rewrite ER. split; [done|]. split; [done|]. split; [done|].
           simpl in R, Wb. split; [by rewrite R|]. simpl. subst cs. lia.
Qed.

(** X12. No write after the release.  On a line whose directory is gone, a
    turn of the goroutine of SetValues writes nothing and changes no file,
    however it ends and whatever the select picks; with a value at the head
    of its queue and its error channel still empty, it ends the stream with
    the not-enabled error as the one message on the error channel. *)
Theorem released_line_no_write (p : gport) (inp killer errch slot : nat)
    (pick : bool) (w : world) :
  checkFile (folder p) w = false →
  tasks w !! slot = Some (Setter p inp killer errch) →
  match setter_turn pick slot w with
  | Done _ w' | Panic _ w' => log w' = log w ∧ files w' = files w
  | Starved => False
  end
  ∧ ∀ m rest ci cl c,
      chans w !! inp = Some (Chan (m :: rest) ci cl) →
      chans w !! errch = Some (Chan [] (S c) false) →
      inp ≠ errch →
      recv_ready killer w = false ∨ pick = false →
      ∃ w',
        setter_turn pick slot w = Done tt w'
        ∧ tasks w' !! slot = Some Exited
        ∧ chans w' !! errch
          = Some (Chan [MErr (Some (NotEnabled (port p)))] (S c) true)
        ∧ chans w' !! inp = Some (Chan rest ci cl).
Proof.
  intros Hgone Ht. split.
  - assert (Ret : ∀ u, match setter_return slot errch u with
                       | Done _ v' | Panic _ v' => log v' = log u ∧ files v' = files u
                       | Starved => False end).
    { intros u. unfold setter_return, close, exit. rewrite bind_run.
      destruct (chans u !! errch) as [c|]; [|done]. by destruct (closed c). }
    assert (Snd : ∀ e u, match setter_send slot errch e u with
                         | Done _ v' | Panic _ v' => log v' = log u ∧ files v' = files u
                         | Starved => False end).
    { intros e u. unfold setter_send, try_send, close, exit, become.
      rewrite bind_run. destruct (chans u !! errch) as [c|] eqn:E; [|done].
      destruct (closed c) eqn:Ec; [done|].
      destruct (length (buf c) <? cap c)%nat; [|done].
      rewrite bind_run. simpl.
      destruct (<[errch:=_]> (chans u) !! errch) as [c'|]; [|done].
      by destruct (closed c'). }
    assert (Inp : match setter_input slot p inp errch w with
                  | Done _ v' | Panic _ v' => log v' = log w ∧ files v' = files w
                  | Starved => False end).
    { unfold setter_input. rewrite bind_run. unfold try_recv.
      destruct (chans w !! inp) as [c|]; [|done].
      destruct (buf c) as [|m rest].
      - destruct (closed c); [apply Ret|done].
      - rewrite bind_run.
        match goal with |- context [SetValue p ?b ?u] =>
          assert (E : SetValue p b u = Done (Some (NotEnabled (port p))) u)
        end.
        { unfold SetValue. rewrite bind_run, checkEnabled_run.
          replace (checkFile (folder p) _) with (checkFile (folder p) w) by reflexivity.
          by rewrite Hgone. }
        rewrite E.
        match goal with |- context [setter_send slot errch ?e ?u] =>
          exact (Snd e u)
        end. }
    unfold setter_turn. rewrite Ht.
    destruct (recv_ready killer w), (recv_ready inp w); try done;
      try destruct pick; try apply Ret; try apply Inp.
  - intros m rest ci cl c Hi He Hne Hk.
    destruct (setter_turn_value p inp killer errch slot c w m rest ci cl pick)
      as (err & w2 & E & ET & Hc & Hts); try done.
    destruct (SetValue_log _ _ _ _ _ E) as [_ Hsame]. specialize (Hsame Hgone). subst w2.
    assert (err = Some (NotEnabled (port p))) as ->.
    { revert E. unfold SetValue. rewrite bind_run, checkEnabled_run, Hgone.
      cbn beta iota. rewrite ret_run. by intros [= <-]. }
    eexists. split; [exact ET|]. simpl.
    assert (Hslot : (slot < length (tasks w))%nat) by (by eapply lookup_lt_Some).
    assert (Herr : (errch < length (chans w))%nat) by (by eapply lookup_lt_Some).
    assert (Hinp : (inp < length (chans w))%nat) by (by eapply lookup_lt_Some).
    split; [by rewrite list_lookup_insert_eq|].
    split; [rewrite list_lookup_insert_eq; [done|by rewrite length_insert]|].
    rewrite list_lookup_insert_ne by done. by rewrite list_lookup_insert_eq.
Qed.

(** ** Streams and Reset together *)

Lemma Values_keeps_file (p : gport) (buffersize : Z) (path : string)
    (w w' : world) (r : option nat * option error) :
  Values p buffersize w = Done r w' →
  checkFile path w = true → checkFile path w' = true.
Proof.
  intros E H. revert E. unfold Values. rewrite bind_run, checkEnabled_run.
  destruct (checkFile (folder p) w); [|by intros [= _ <-]].
  cbn beta iota. unfold writeEdge. rewrite bind_run.
  destruct (writeFile (edge p) "both" w) as [err w1| |] eqn:E1; try done.
  assert (H1 : checkFile path w1 = true) by (by eapply writeFile_keeps_file).
  destruct err as [e|]; [by intros [= _ <-]|].
  rewrite bind_run. unfold buildMonitor. rewrite bind_run. unfold readFile.
  destruct (files w1 !! value p) as [n|]; [|by intros [= _ <-]].
  destruct (rd n); [by intros [= _ <-]|]. cbn beta iota.
  rewrite bind_run, make_chan_run, bind_run, make_chan_run, bind_run, go_run.
  rewrite ret_run, bind_run, modify_run, ret_run. by intros [= _ <-].
Qed.

(** X13. However many streams were started on a claimed line, Reset copes:
    after any sequence of SetValues and Values calls the registry is one
    that Reset runs without a panic, the line is still claimed, and Reset
    returns, has called every hook of the registry and emptied it before it
    wrote the release request, and leaves the registry empty. *)
Theorem streams_then_Reset (p : gport) (calls : list call) :
  ∀ w : world,
    checkFile (folder p) w = true →
    hooks_ok w = true →
    ∃ w1 r w2 tl,
      range calls (start p) w = Done tt w1
      ∧ hooks_ok w1 = true
      ∧ checkFile (folder p) w1 = true
      ∧ Reset p w1 = Done r w2
      ∧ resetters w2 = []
      ∧ log w2 = log w1 ++ (EvHook <$> resetters w1)
                   ++ EvClear :: EvWrite (unexport p) (sport p) :: tl
      ∧ forallb is_go tl = true.
Proof.
  induction calls as [|c calls IH]; intros w Hen Hok.
  - destruct (Reset_run p w Hen Hok) as (_ & r & w2 & tl & _ & _ & _ & _ & _ & E & R & L & G).
    exists w, r, w2, tl. by repeat split.
  - assert (Step : ∃ w', start p c w = Done tt w' ∧ hooks_ok w' = true
                         ∧ checkFile (folder p) w' = true).
    { destruct c as [ch|buffersize]; unfold start; rewrite bind_run.
      - destruct (SetValues_keeps_hooks_ok p ch w Hen Hok) as (r & w' & E & Hok').
        rewrite E, ret_run. exists w'. split; [done|]. split; [done|].
        rewrite (SetValues_run p ch w Hen) in E. by injection E as _ <-.
      - destruct (Values_keeps_hooks_ok p buffersize w Hok) as (r & w' & E & Hok').
        rewrite E, ret_run. exists w'. split; [done|]. split; [done|].
        by eapply Values_keeps_file. }
    destruct Step as (w' & E & Hok' & Hen').
    destruct (IH w' Hen' Hok') as (w1 & r & w2 & tl & E1 & H).
    exists w1, r, w2, tl. cbn [range]. by rewrite bind_run, E.
Qed.

(** ** State *)

(** X14. State only reads.  It always returns, with the world as it found
    it; for a line that is not claimed it says "Reset"; when the direction
    or the value file cannot be read it shows the text of that error in
    place of failing; otherwise it shows direction and value. *)
Theorem State_reads_only (p : gport) (w : world) :
  let base := "GPIO " +:+ sport p +:+ ": " in
  ∃ s,
    State p w = Done s w
    ∧ (checkFile (folder p) w = false → s = base +:+ "Reset")
    ∧ (checkFile (folder p) w = true →
       match readFile (direction p) w, readFile (value p) w with
       | Done (_, Some e) _, _ => s = base +:+ Error e
       | Done (_, None) _, Done (_, Some e) _ => s = base +:+ Error e
       | Done (dir, None) _, Done (val, None) _ =>
           s = base +:+ " " +:+ dir +:+ " with value " +:+ val
       | _, _ => False
       end).
Proof.
  cbv zeta. unfold State. rewrite bind_run, get_run.
  destruct (checkFile (folder p) w); simpl.
  - unfold readDirection, readValue, readFile. rewrite bind_run.
    destruct (files w !! direction p) as [nd|].
    + destruct (rd nd) as [e|].
      * eexists. split; [reflexivity|]. by split.
      * cbn beta iota. rewrite bind_run.
        destruct (files w !! value p) as [nv|].
        -- destruct (rd nv) as [e|]; eexists; (split; [reflexivity|]); by split.
        -- eexists. split; [reflexivity|]. by split.
    + eexists. split; [reflexivity|]. by split.
  - eexists. split; [reflexivity|]. by split.
Qed.

(** ** The earlier Enable and Reset (gpio.go) *)

Lemma await_create_post (name : string) (T : Z) (w : world) :
  0 ≤ T →
  ∃ r w',
    ('(ch, err) ← awaitFileCreate name T;
     if err is Some e then mret (Some e) else recv_err (turns_for T) ch) w
      = Done r w'
    ∧ log w' = log w ++ [EvGo (length (tasks w))]
    ∧ resetters w' = resetters w
    ∧ now w ≤ now w' ∧ now w' < now w + T + pollInterval
    ∧ (r = None ∧ checkFile name w' = true
       ∨ r = Some (Timeout name) ∧ now w + T ≤ now w').
Proof.
  intros HT. unfold awaitFileCreate.
  rewrite !bind_run, make_chan_run. unfold time_Now.
  rewrite bind_run, get_run, bind_run, go_run, ret_run. cbn beta iota.
  destruct (turns_for_enough T HT) as [Hn Hd].
  match goal with
  | |- context [recv_err _ _ ?v] =>
      destruct (recv_err_post (turns_for T) (length (chans w))
                  (length (tasks w)) name true (now w + T) 0%nat v)
        as (r & w' & E' & L' & Hm & Hb & Hr);
        [simpl; apply lookup_snoc|simpl; apply lookup_snoc|exact Hn|simpl; lia|];
      destruct (recv_err_total (turns_for T) (length (chans w))
                  (length (tasks w)) name true (now w + T) 0%nat v)
        as (r0 & w0 & E0 & _ & R0 & _);
        [simpl; apply lookup_snoc|simpl; apply lookup_snoc|exact Hn|simpl; lia|]
  end.
  simpl in *. rewrite E' in E0. injection E0 as <- <-.
  exists r, w'. rewrite E'. split; [done|]. split; [done|]. split; [done|].
  split; [lia|]. split; [lia|].
  destruct Hr as [Hr|[Hr Hl]]; [by left|right; split; [done|lia]].
Qed.

Lemma await_remove_post (name : string) (T : Z) (w : world) :
  0 ≤ T →
  ∃ r w',
    ('(ch, err) ← awaitFileRemove name T;
     if err is Some e then mret (Some e) else recv_err (turns_for T) ch) w
      = Done r w'
    ∧ (log w' = log w ∨ log w' = log w ++ [EvGo (length (tasks w))])
    ∧ resetters w' = resetters w
    ∧ now w ≤ now w' ∧ now w' < now w + T + pollInterval
    ∧ (r = None ∧ checkFile name w' = false
       ∨ r = Some (Timeout name) ∧ now w + T ≤ now w').
Proof.
  intros HT. rewrite bind_run. unfold awaitFileRemove.
  rewrite bind_run, make_chan_run, bind_run, get_run.
  replace (checkFile name (with_chans (chans w ++ [Chan [] 1 false]) w))
    with (checkFile name w) by reflexivity.
  destruct (checkFile name w) eqn:Hthere; simpl.
  - destruct (turns_for_enough T HT) as [Hn Hd].
    match goal with
    | |- context [recv_err _ _ ?v] =>
        destruct (recv_err_post (turns_for T) (length (chans w))
                    (length (tasks w)) name false (now w + T) 0%nat v)
          as (r & w' & E' & L' & Hm & Hb & Hr);
          [simpl; apply lookup_snoc|simpl; apply lookup_snoc|exact Hn|simpl; lia|];
        destruct (recv_err_total (turns_for T) (length (chans w))
                    (length (tasks w)) name false (now w + T) 0%nat v)
          as (r0 & w0 & E0 & _ & R0 & _);
          [simpl; apply lookup_snoc|simpl; apply lookup_snoc|exact Hn|simpl; lia|]
    end.
    simpl in *. rewrite E' in E0. injection E0 as <- <-.
    exists r, w'. rewrite E'. split; [done|]. split; [by right|]. split; [done|].
    split; [lia|]. split; [lia|].
    destruct Hr as [Hr|[Hr Hl]]; [by left|right; split; [done|lia]].
  - rewrite bind_run, (resolve_run _ _ 0%nat) by (simpl; apply lookup_snoc).
    rewrite ret_run. cbn beta iota.
    rewrite (recv_err_resolved _ _ None 1%nat).
    2:{ simpl. rewrite insert_snoc. apply lookup_snoc. }
    eexists _, _. split; [reflexivity|]. simpl.
    split; [by left|]. split; [done|]. split; [lia|]. split; [lia|]. by left.
Qed.

(** X15. The earlier Enable (gpio.go) always returns, within its time
    limit of one second plus one poll interval.  It writes the claim
    request at most once and no control file.  When it returns nil the line
    directory is there at that moment; its errors are the refusal of the
    claim request and the waiter's timeout on the line directory, raised no
    earlier than the time limit. *)
Theorem Simple_Enable_outcome (p : gport) (w : world) :
  match Simple_Enable p w with
  | Done r w' =>
      now w ≤ now w' ∧ now w' < now w + Simple.timelimit + pollInterval
      ∧ (log w' = log w
         ∨ log w' = log w ++ [EvWrite (export p) (sport p)]
         ∨ log w' = log w ++ [EvWrite (export p) (sport p); EvGo (length (tasks w))])
      ∧ match r with
        | None => checkFile (folder p) w' = true
        | Some e =>
            (∃ en, e = PathError (export p) en ∧ now w' = now w)
            ∨ (e = Timeout (folder p) ∧ now w + Simple.timelimit ≤ now w')
        end
  | _ => False
  end.
Proof.
  assert (Hpos : 0 < Simple.timelimit) by done.
  unfold Simple_Enable. rewrite bind_run, get_run.
  destruct (checkFile (folder p) w) eqn:Hthere.
  { rewrite ret_run. split; [lia|]. split; [lia|]. split; [by left|done]. }
  rewrite bind_run.
  destruct (writeFile_run (export p) (sport p) w)
    as (err & w1 & E & L & Hn & _ & _ & _ & Ht & _).
  rewrite E. destruct err as [e|].
  { rewrite ret_run. split; [lia|]. split; [lia|]. split; [by right; left|].
    left. destruct (writeFile_error _ _ _ _ _ E) as [en ->]. eauto. }
  destruct (await_create_post (folder p) Simple.timelimit w1)
    as (r & w' & -> & L' & _ & Hm & Hb & Hr); [lia|].
  split; [lia|]. split; [lia|].
  split; [right; right; by rewrite L', L, Ht, <- app_assoc|].
  destruct Hr as [[-> Hf]|[-> Hl]]; [done|]. right. split; [done|lia].
Qed.

(** X16. The earlier Reset (gpio.go) always returns, within one second plus
    one poll interval.  When it returns nil the line directory is gone and
    a further Reset returns nil at once and changes nothing; its errors are
    the refusal of the release request and the waiter's timeout on the line
    directory. *)
Theorem Simple_Reset_outcome (p : gport) (w : world) :
  match Simple_Reset p w with
  | Done r w' =>
      now w ≤ now w' ∧ now w' < now w + Simple.timelimit + pollInterval
      ∧ resetters w' = resetters w
      ∧ match r with
        | None => checkFile (folder p) w' = false ∧ Simple_Reset p w' = Done None w'
        | Some e =>
            (∃ en, e = PathError (unexport p) en ∧ now w' = now w)
            ∨ (e = Timeout (folder p) ∧ now w + Simple.timelimit ≤ now w')
        end
  | _ => False
  end.
Proof.
  assert (Hpos : 0 < Simple.timelimit) by done.
  assert (Again : ∀ u, checkFile (folder p) u = false → Simple_Reset p u = Done None u).
  { intros u Hu. unfold Simple_Reset. by rewrite bind_run, get_run, Hu. }
  destruct (checkFile (folder p) w) eqn:Hthere.
  2:{ rewrite (Again w Hthere). split; [lia|]. split; [lia|]. split; [done|].
      split; [done|]. by apply Again. }
  unfold Simple_Reset. rewrite bind_run, get_run, Hthere. simpl. rewrite bind_run.
  destruct (writeFile_run (unexport p) (sport p) w)
    as (err & w1 & E & L & Hn & _ & _ & _ & Ht & Hrs & _).
  rewrite E. destruct err as [e|].
  { rewrite ret_run. split; [lia|]. split; [lia|]. split; [done|].
    left. destruct (writeFile_error _ _ _ _ _ E) as [en ->]. eauto. }
  destruct (await_remove_post (folder p) Simple.timelimit w1)
    as (r & w' & -> & _ & Hrs' & Hm & Hb & Hr); [lia|].
  split; [lia|]. split; [lia|]. split; [by rewrite Hrs'|].
  destruct Hr as [[-> Hf]|[-> Hl]].
  - split; [done|]. by apply Again.
  - right. split; [done|lia].
Qed.

End Port.

(** * The facts at work on the sample worlds *)

Import Sample.

(** ** Runs *)

(** Claiming the free line: one write of the claim-request file, the wait
    for the directory, then the readiness polls; direction is ready at 80ms
    and edge at 100ms. *)
Example Enable_from_disabled :
  answer (Enable tick p17 disabled) = Some None
  ∧ (now <$> world_of (Enable tick p17 disabled)) = Some (100 * ms)
  ∧ (log <$> world_of (Enable tick p17 disabled)) =
      Some [EvWrite (export p17) "17"; EvGo 0;
            EvWrite (direction p17) " "; EvWrite (direction p17) " ";
            EvWrite (direction p17) " ";
            EvWrite (edge p17) " "; EvWrite (edge p17) " "]
  ∧ answer ((_ ← Enable tick p17; Enable tick p17) disabled) = Some None
  ∧ (log <$> world_of ((_ ← Enable tick p17; Enable tick p17) disabled))
    = (log <$> world_of (Enable tick p17 disabled)).
Proof. vm_compute. repeat split. Qed.

Example SetValues_starts_streaming :
  SetValues p17 0 enabled_queue = Done (Some 1%nat, None) streaming.
Proof. vm_compute. reflexivity. Qed.

(** The goroutine takes the queued values in order, one per turn, and then
    parks on the empty, open input stream. *)
Example streaming_in_order :
  (log <$> world_of (setter_run [false; false; false; false] 0 streaming))
    = Some [EvGo 0; EvWrite (value p17) "1"; EvWrite (value p17) "0";
            EvWrite (value p17) "1"]
  ∧ (tasks <$> world_of (setter_run [false; false; false; false] 0 streaming))
    = Some [Setter p17 0 2 1].
Proof. vm_compute. split; reflexivity. Qed.

(** On an input line the first write fails: the error is the one message of
    the error channel, and the two values behind it stay in the queue. *)
Example streaming_stops_at_first_failure :
  let run := (_ ← SetValues p17 0; setter_run [false; false; false; false] 0)
               enabled_input_queue in
  (log <$> world_of run) = Some [EvGo 0; EvWrite (value p17) "1"]
  ∧ (chans <$> world_of run)
    = Some [Chan [MBool false; MBool true] 3 false;
            Chan [MErr (Some (PathError (value p17) EPERM))] 1 true;
            Chan [] 1 false]
  ∧ (tasks <$> world_of run) = Some [Exited].
Proof. vm_compute. repeat split. Qed.

(** Reset of the streaming line whose directory the kernel drops in time. *)
Example Reset_streaming :
  let run := (_ ← SetValues p17 0; Reset tick p17) enabled_leaving in
  answer run = Some None
  ∧ (log <$> world_of run)
    = Some [EvGo 0; EvHook (CloseChan 2); EvClear; EvWrite (unexport p17) "17"; EvGo 1]
  ∧ (resetters <$> world_of run) = Some [].
Proof. vm_compute. repeat split. Qed.

Example SetMode_on_samples :
  (log <$> world_of (SetMode p17 GPIOOutputHigh enabled))
    = Some [EvWrite (direction p17) "high"]
  ∧ answer (SetMode p17 GPIOOutputHigh enabled) = Some None
  ∧ SetMode p17 7 enabled = Done (Some InvalidMode) enabled
  ∧ SetMode p17 (-1) enabled = Done (Some InvalidMode) enabled
  ∧ SetMode p17 GPIOInput disabled = Done (Some (NotEnabled 17)) disabled.
Proof. vm_compute. repeat split. Qed.

Example Values_on_samples :
  answer (Values p17 4 enabled) = Some (Some 1%nat, None)
  ∧ (log <$> world_of (Values p17 4 enabled))
    = Some [EvWrite (edge p17) "both"; EvGo 0]
  ∧ (resetters <$> world_of (Values p17 4 enabled)) = Some [StopMonitor 2]
  ∧ (tasks <$> world_of (Values p17 4 enabled))
    = Some [Monitor (value p17) 1 2 "0"]
  ∧ Values p17 4 disabled = Done (None, Some (NotEnabled 17)) disabled.
Proof. vm_compute. repeat split. Qed.

(** ** Instances of the theorems *)

Lemma Enable_idempotent_witness :
  checkFile (folder p17) enabled = true
  ∧ Enable tick p17 enabled = Done None enabled
  ∧ (_ ← Enable tick p17; Enable tick p17) enabled = Done None enabled.
Proof.
  split; [vm_compute; reflexivity|].
  destruct (Enable_idempotent tick p17 enabled) as (H1 & H2 & _);
    [vm_compute; reflexivity|].
  split; [exact H1|exact H2].
Defined.

Lemma IsOutput_spec_witness :
  checkFile (folder p17) enabled_odd = true
  ∧ files enabled_odd !! direction p17 = Some (dir_node "sideways")
  ∧ ∃ b, IsOutput p17 enabled_odd = Done (b, None) enabled_odd
         ∧ Simple.IsOutput p17 enabled_odd = Done (b, None) enabled_odd
         ∧ (b = true ↔ "sideways"%string ≠ "in"%string).
Proof.
  split; [vm_compute; reflexivity|].
  split; [vm_compute; reflexivity|].
  apply (IsOutput_spec p17 enabled_odd "sideways" (wr (dir_node "sideways")));
    vm_compute; reflexivity.
Defined.

Lemma awaitFileRemove_absent_witness :
  checkFile "/tmp/gopitest.awaitremovepre" enabled = false
  ∧ ∃ w',
      awaitFileRemove "/tmp/gopitest.awaitremovepre" (2 * second) enabled
        = Done (Handle 1 None, None) w'
      ∧ tasks w' = [] ∧ now w' = 0
      ∧ ∀ turns, ∃ w'',
          recv_err tick turns (Handle 1 None) w' = Done None w''
          ∧ now w'' = 0 ∧ tasks w'' = [].
Proof.
  split; [vm_compute; reflexivity|].
  destruct (awaitFileRemove_absent tick "/tmp/gopitest.awaitremovepre"
              (2 * second) enabled) as [(w' & E & T & _ & N & _ & R) _];
    [vm_compute; reflexivity|].
  exists w'. split; [exact E|]. split; [exact T|]. split; [exact N|]. exact R.
Defined.

Lemma pollWritable_spec_witness :
  checkFile (direction p17) enabled_locked = true
  ∧ answer (pollWritable tick p17 0 (direction p17) enabled_locked) = Some Again
  ∧ (∃ w',
       pollWritable tick p17 (10 * ms - timelimit) (direction p17) enabled_locked
         = Done (GaveUp (NotWritable "17" (direction p17))) w'
       ∧ 10 * ms - timelimit + timelimit ≤ now w')
  ∧ checkFile (direction p17) enabled = true
  ∧ answer (pollWritable tick p17 0 (direction p17) enabled) = Some StateOK.
Proof.
  split; [vm_compute; reflexivity|].
  split.
  { destruct (pollWritable_spec tick ltac:(vm_compute; reflexivity) p17 0
                (direction p17) 0 enabled_locked)
      as [(err & w1 & E & _ & H) _]; [vm_compute; reflexivity|].
    assert (err = Some (PathError (direction p17) EACCES)) as ->.
    { vm_compute in E. by inversion E. }
    unfold os_IsPermission in H. cbv beta iota in H.
    destruct H as [H _]. rewrite H. vm_compute. reflexivity. }
  split.
  { destruct (pollWritable_spec tick ltac:(vm_compute; reflexivity) p17
                (10 * ms - timelimit) (direction p17) 0 enabled_locked)
      as [(err & w1 & E & _ & H) _]; [vm_compute; reflexivity|].
    assert (err = Some (PathError (direction p17) EACCES)) as ->.
    { vm_compute in E. by inversion E. }
    unfold os_IsPermission in H. cbv beta iota in H.
    destruct H as (H & _ & Hclock).
    eexists. split; [|exact Hclock]. rewrite H. reflexivity. }
  split; [vm_compute; reflexivity|].
  destruct (pollWritable_spec tick ltac:(vm_compute; reflexivity) p17 0
              (direction p17) 0 enabled)
    as [(err & w1 & E & _ & H) _]; [vm_compute; reflexivity|].
  assert (err = Some (PathError (direction p17) EINVAL)) as ->.
  { vm_compute in E. by inversion E. }
  unfold os_IsPermission in H. cbv beta iota in H.
  destruct H as [H _]. by rewrite H.
Defined.

Lemma Reset_cancels_before_release_witness :
  checkFile (folder p17) streaming = true
  ∧ hooks_ok streaming = true
  ∧ ∃ r w3 tl,
      Reset tick p17 streaming = Done r w3
      ∧ resetters w3 = []
      ∧ log w3 = [EvGo 0] ++ [EvHook (CloseChan 2)]
                   ++ EvClear :: EvWrite (unexport p17) (sport p17) :: tl
      ∧ forallb is_go tl = true.
Proof.
  split; [vm_compute; reflexivity|].
  split; [vm_compute; reflexivity|].
  destruct (Reset_cancels_before_release tick ltac:(vm_compute; reflexivity)
              p17 streaming)
    as (w1 & r & w3 & tl & _ & _ & _ & _ & _ & _ & E & R & L & G);
    [vm_compute; reflexivity|vm_compute; reflexivity|].
  exists r, w3, tl. split; [exact E|]. split; [exact R|]. split; [exact L|exact G].
Defined.

Lemma SetValues_hook_once_witness :
  checkFile (folder p17) enabled_queue = true
  ∧ ∃ w1 w2,
      SetValues p17 0 enabled_queue = Done (Some 1%nat, None) w1
      ∧ resetters w1 = [CloseChan 2]
      ∧ invoke (CloseChan 2) w1 = Done tt w2
      ∧ recv_ready 2 w2 = true
      ∧ crash (invoke (CloseChan 2) w2) = Some "close of closed channel"%string.
Proof.
  split; [vm_compute; reflexivity|].
  destruct (SetValues_hook_once p17 0 enabled_queue)
    as (w1 & w2 & E & R & _ & I & K & _ & C); [vm_compute; reflexivity|].
  exists w1, w2. split; [exact E|]. split; [exact R|]. split; [exact I|].
  split; [exact K|exact C].
Defined.

Lemma stream_hook_stays_witness :
  checkFile (folder p17) streaming = true
  ∧ hooks_ok streaming = true
  ∧ (∀ pick slot v,
       match setter_turn pick slot v with
       | Done _ v' | Panic _ v' => resetters v' = resetters v
       | Starved => False
       end)
  ∧ ∃ r w', Reset tick p17 streaming = Done r w' ∧ resetters w' = [].
Proof.
  split; [vm_compute; reflexivity|].
  split; [vm_compute; reflexivity|].
  destruct (stream_hook_stays tick ltac:(vm_compute; reflexivity) p17 streaming)
    as (S & _ & R); [vm_compute; reflexivity|vm_compute; reflexivity|].
  split; [exact S|exact R].
Defined.

Lemma SetValues_stream_spec_witness :
  checkFile (folder p17) enabled_queue = true
  ∧ chans enabled_queue !! 0%nat
    = Some (Chan [MBool true; MBool false; MBool true] 3 false)
  ∧ ∃ w0 w',
      SetValues p17 0 enabled_queue = Done (Some 1%nat, None) w0
      ∧ setter_run [false; true; false] 0 w0 = Done tt w'
      ∧ log w' = [EvGo 0; EvWrite (value p17) "1"; EvWrite (value p17) "0";
                  EvWrite (value p17) "1"]
      ∧ chans w' !! 0%nat = Some (Chan [] 3 false)
      ∧ tasks w' !! 0%nat = Some (Setter p17 0 2 1).
Proof.
  split; [vm_compute; reflexivity|]. split; [reflexivity|].
  pose proof (SetValues_stream_spec p17 0 enabled_queue
                [MBool true; MBool false; MBool true] 3 false
                ltac:(vm_compute; reflexivity) ltac:(reflexivity)) as H.
  cbv zeta in H. destruct H as (w0 & E & _ & _ & _ & _ & _ & _ & _ & Run & _).
  assert (E0 : SetValues p17 0 enabled_queue = Done (Some 1%nat, None) streaming)
    by (vm_compute; reflexivity).
  rewrite E0 in E. injection E as <-.
  destruct (Run [false; true; false]) as (err & rest & w1 & w' & EA & ER & _ & L & I & Q).
  assert (A : answer (apply_in_order p17 [MBool true; MBool false; MBool true] streaming)
              = Some (None, []))
    by (vm_compute; reflexivity).
  assert (LA : log <$> world_of
                 (apply_in_order p17 [MBool true; MBool false; MBool true] streaming)
               = Some [EvGo 0; EvWrite (value p17) "1"; EvWrite (value p17) "0";
                       EvWrite (value p17) "1"])
    by (vm_compute; reflexivity).
  change (take (length [false; true; false]) [MBool true; MBool false; MBool true])
    with [MBool true; MBool false; MBool true] in EA.
  rewrite EA in A, LA. simpl in A, LA.
  injection A as -> ->. injection LA as LA.
  exists streaming, w'. split; [exact E0|]. split; [exact ER|].
  split; [by rewrite L|]. split; [exact I|].
  destruct Q as [_ Q]. exact (proj1 Q).
Defined.

(** ** Where the code departs from the specification *)

(** C1 does not hold.  The direction file of the claimed line refuses the
    placeholder with EINVAL, which is no permissions error: the claim has
    the loop poll on, the code takes the file as ready and stops.  And where
    the direction file refuses the placeholder with EACCES, a permissions
    error, the claim has the file ready, while the code polls again and in
    the end gives up with the timeout error. *)
Lemma pollWritable_not_as_claimed :
  checkFile (direction p17) enabled = true
  ∧ answer (writeFile (direction p17) " " enabled)
    = Some (Some (PathError (direction p17) EINVAL))
  ∧ os_IsPermission (PathError (direction p17) EINVAL) = false
  ∧ answer (pollWritable tick p17 0 (direction p17) enabled) = Some StateOK
  ∧ checkFile (direction p17) enabled_locked = true
  ∧ answer (writeFile (direction p17) " " enabled_locked)
    = Some (Some (PathError (direction p17) EACCES))
  ∧ os_IsPermission (PathError (direction p17) EACCES) = true
  ∧ answer (pollWritable tick p17 0 (direction p17) enabled_locked) = Some Again
  ∧ answer (awaitWritable tick (turns_for tick timelimit) p17 0 (direction p17)
              enabled_locked)
    = Some (Some (NotWritable "17" (direction p17))).
Proof. vm_compute. repeat split. Qed.

(** C3 does not hold.  The hook SetValues registers can be called once; the
    second call of the same hook panics. *)
Lemma SetValues_hook_twice_panics :
  (resetters <$> world_of (SetValues p17 0 enabled_queue)) = Some [CloseChan 2]
  ∧ answer ((_ ← SetValues p17 0; invoke (CloseChan 2)) enabled_queue) = Some tt
  ∧ crash ((_ ← SetValues p17 0; _ ← invoke (CloseChan 2); invoke (CloseChan 2))
             enabled_queue)
    = Some "close of closed channel"%string.
Proof. vm_compute. repeat split. Qed.

(** C4 does not hold.  The stream over a closed input returns on its first
    turn, and the stream on an input line returns on its first failing
    write; either way its hook is still in the registry afterwards. *)
Lemma hook_outlives_stream :
  (let run := (_ ← SetValues p17 0; setter_turn false 0) enabled in
   (tasks <$> world_of run) = Some [Exited]
   ∧ (resetters <$> world_of run) = Some [CloseChan 2])
  ∧ (let run := (_ ← SetValues p17 0; setter_turn false 0) enabled_input_queue in
     (tasks <$> world_of run) = Some [Exited]
     ∧ (resetters <$> world_of run) = Some [CloseChan 2]).
Proof. vm_compute. repeat split. Qed.

(** ** Instances of the further facts *)

Lemma Enable_deadline_witness :
  0 < tick
  ∧ ∃ r w',
      Enable tick p17 disabled_stuck = Done r w'
      ∧ answer (Done r w') = Some (Some (NotWritable "17" (direction p17)))
      ∧ now disabled_stuck + timelimit ≤ now w'
      ∧ now w' < now disabled_stuck + timelimit + tick.
Proof.
  split; [reflexivity|].
  pose proof (Enable_deadline tick ltac:(reflexivity) p17 disabled_stuck) as H.
  assert (A : answer (Enable tick p17 disabled_stuck)
              = Some (Some (NotWritable "17" (direction p17))))
    by (vm_compute; reflexivity).
  destruct (Enable tick p17 disabled_stuck) as [r w'| |]; [|destruct H|destruct H].
  destruct H as (_ & H2 & H3). exists r, w'. split; [reflexivity|].
  split; [exact A|]. split; [|exact H2].
  injection A as ->.
  destruct H3 as [(en & E & _)|[[E _]|[_ H3]]]; [discriminate E|discriminate E|exact H3].
Defined.

Lemma Enable_then_Enable_witness :
  0 < tick
  ∧ checkFile (folder p17) disabled = false
  ∧ never_deleted (folder p17) disabled = true
  ∧ direction p17 ≠ export p17
  ∧ edge p17 ≠ export p17
  ∧ answer (Enable tick p17 disabled) = Some None
  ∧ match Enable tick p17 disabled with
    | Done None w' =>
        IsEnabled p17 w' = Done true w'
        ∧ checkFile (edge p17) w' = true
        ∧ Enable tick p17 w' = Done None w'
        ∧ writes_to (export p17) (log w') = S (writes_to (export p17) (log disabled))
        ∧ ∃ k1 k2,
            log w' = log disabled ++ EvWrite (export p17) (sport p17)
                       :: EvGo (length (tasks disabled))
                       :: replicate (S k1) (EvWrite (direction p17) " ")
                       ++ replicate (S k2) (EvWrite (edge p17) " ")
    | Done (Some _) _ => True
    | _ => False
    end.
Proof.
  assert (D : direction p17 ≠ export p17) by (intros H; vm_compute in H; discriminate H).
  assert (G : edge p17 ≠ export p17) by (intros H; vm_compute in H; discriminate H).
  split; [reflexivity|]. split; [vm_compute; reflexivity|].
  split; [vm_compute; reflexivity|]. split; [exact D|]. split; [exact G|].
  split; [vm_compute; reflexivity|].
  apply (Enable_then_Enable tick ltac:(reflexivity) p17 disabled);
    [vm_compute; reflexivity|vm_compute; reflexivity|exact D|exact G].
Defined.

Lemma Reset_outcome_witness :
  0 < tick
  ∧ answer (Reset tick p17 enabled_leaving) = Some None
  ∧ ∃ r w',
      Reset tick p17 enabled_leaving = Done r w'
      ∧ now w' < now enabled_leaving + timelimit + tick
      ∧ (checkFile (folder p17) enabled_leaving = true → resetters w' = []).
Proof.
  split; [reflexivity|]. split; [vm_compute; reflexivity|].
  pose proof (Reset_outcome tick ltac:(reflexivity) p17 enabled_leaving) as H.
  destruct (Reset tick p17 enabled_leaving) as [r w'|why w'|] eqn:E.
  - destruct H as (_ & H2 & H3 & _). exists r, w'. split; [reflexivity|].
    split; [exact H2|exact H3].
  - vm_compute in H. discriminate H.
  - destruct H.
Defined.

Lemma disabled_line_guard_witness :
  checkFile (folder p17) disabled = false
  ∧ SetMode p17 GPIOOutputHigh disabled = Done (Some (NotEnabled 17)) disabled
  ∧ Value p17 disabled = Done (false, Some (NotEnabled 17)) disabled
  ∧ SetValue p17 true disabled = Done (Some (NotEnabled 17)) disabled
  ∧ SetValues p17 0 disabled = Done (None, Some (NotEnabled 17)) disabled.
Proof.
  split; [vm_compute; reflexivity|].
  destruct (disabled_line_guard p17 disabled) as (M & _ & V & S & SS & _);
    [vm_compute; reflexivity|].
  split; [exact (M GPIOOutputHigh)|]. split; [exact V|].
  split; [exact (S true)|exact (SS 0%nat)].
Defined.

Lemma SetValue_then_Value_witness :
  checkFile (folder p17) enabled = true
  ∧ (∀ n, files enabled !! value p17 = Some n → rd n = None)
  ∧ answer (SetValue p17 true enabled) = Some None
  ∧ match SetValue p17 true enabled with
    | Done None w' =>
        Value p17 w' = Done (true, None) w'
        ∧ Simple.Value p17 w' = Done (true, None) w'
    | Done (Some _) w' => files w' = files enabled
    | _ => False
    end.
Proof.
  assert (R : ∀ n, files enabled !! value p17 = Some n → rd n = None).
  { intros n H. vm_compute in H. injection H as <-. reflexivity. }
  split; [vm_compute; reflexivity|]. split; [exact R|].
  split; [vm_compute; reflexivity|].
  apply (SetValue_then_Value p17 true enabled); [vm_compute; reflexivity|exact R].
Defined.

Lemma SetMode_then_IsOutput_witness :
  checkFile (folder p17) enabled = true
  ∧ (∀ n, files enabled !! direction p17 = Some n → rd n = None)
  ∧ answer (SetMode p17 GPIOOutputLow enabled) = Some None
  ∧ match SetMode p17 GPIOOutputLow enabled with
    | Done None w' =>
        0 ≤ GPIOOutputLow ≤ 3
        ∧ IsOutput p17 w' = Done (negb (GPIOOutputLow =? GPIOInput), None) w'
        ∧ Simple.IsOutput p17 w' = Done (negb (GPIOOutputLow =? GPIOInput), None) w'
    | Done (Some _) w' => files w' = files enabled
    | _ => False
    end.
Proof.
  assert (R : ∀ n, files enabled !! direction p17 = Some n → rd n = None).
  { intros n H. vm_compute in H. injection H as <-. reflexivity. }
  split; [vm_compute; reflexivity|]. split; [exact R|].
  split; [vm_compute; reflexivity|].
  apply (SetMode_then_IsOutput p17 GPIOOutputLow enabled);
    [vm_compute; reflexivity|exact R].
Defined.

Lemma newGPIO_lines_apart_witness :
  (17 : Z) ≠ 27
  ∧ export p17 = export p27
  ∧ unexport p17 = unexport p27
  ∧ folder p17 ≠ folder p27
  ∧ value p17 ≠ direction p27
  ∧ edge p17 ≠ export p27.
Proof.
  assert (N : (17 : Z) ≠ 27) by discriminate.
  split; [exact N|].
  pose proof (newGPIO_lines_apart "/sys/class/gpio" 17 27 N) as H. cbv zeta in H.
  destruct H as (X & U & H).
  split; [exact X|]. split; [exact U|].
  split; [|split]; apply H; rewrite ?elem_of_cons; auto 10.
Defined.

Lemma setter_run_in_order_witness :
  tasks streaming !! 0%nat = Some (Setter p17 0 2 1)
  ∧ chans streaming !! 1%nat = Some (Chan [] 1 false)
  ∧ chans streaming !! 0%nat
    = Some (Chan [MBool true; MBool false; MBool true] 3 false)
  ∧ recv_ready 2 streaming = false
  ∧ ∃ err rest w1 w',
      apply_in_order p17 [MBool true; MBool false; MBool true] streaming
        = Done (err, rest) w1
      ∧ setter_run [false; true; false] 0 streaming = Done tt w'
      ∧ files w' = files w1 ∧ log w' = log w1
      ∧ chans w' !! 0%nat = Some (Chan rest 3 false).
Proof.
  split; [reflexivity|]. split; [reflexivity|]. split; [reflexivity|].
  split; [reflexivity|].
  destruct (setter_run_in_order p17 0 2 1 0 0 [MBool true; MBool false; MBool true]
              [false; true; false] streaming 3 false)
    as (err & rest & w1 & w' & A & R & F & L & I & _);
    [reflexivity|reflexivity|reflexivity|reflexivity|reflexivity
    |discriminate|discriminate|discriminate|].
  exists err, rest, w1, w'. split; [exact A|]. split; [exact R|].
  split; [exact F|]. split; [exact L|exact I].
Defined.

Lemma cancelled_stream_stops_witness :
  tasks cancelled !! 0%nat = Some (Setter p17 0 2 1)
  ∧ chans cancelled !! 1%nat = Some (Chan [] 1 false)
  ∧ chans cancelled !! 0%nat
    = Some (Chan [MBool true; MBool false; MBool true] 3 false)
  ∧ recv_ready 2 cancelled = true
  ∧ ∃ w',
      setter_run [false; false; true; false] 0 cancelled = Done tt w'
      ∧ tasks w' !! 0%nat = Some Exited
      ∧ (writes_to (value p17) (log w') ≤ writes_to (value p17) (log cancelled) + 3)%nat.
Proof.
  split; [reflexivity|]. split; [reflexivity|]. split; [reflexivity|].
  split; [reflexivity|].
  destruct (cancelled_stream_stops p17 0 2 1 0 0 [MBool true; MBool false; MBool true]
              [false; false; true; false] cancelled 3 false)
    as (w' & R & T & _ & _ & W);
    [reflexivity|reflexivity|reflexivity|reflexivity|reflexivity
    |discriminate|discriminate|discriminate|].
  exists w'. split; [exact R|]. split; [exact T|exact W].
Defined.

Lemma released_line_no_write_witness :
  checkFile (folder p17) released = false
  ∧ tasks released !! 0%nat = Some (Setter p17 0 2 1)
  ∧ ∃ w',
      setter_turn false 0 released = Done tt w'
      ∧ tasks w' !! 0%nat = Some Exited
      ∧ chans w' !! 1%nat = Some (Chan [MErr (Some (NotEnabled (port p17)))] 1 true)
      ∧ chans w' !! 0%nat = Some (Chan [MBool false; MBool true] 3 false).
Proof.
  split; [vm_compute; reflexivity|]. split; [reflexivity|].
  destruct (released_line_no_write p17 0 2 1 0 false released) as [_ H];
    [vm_compute; reflexivity|reflexivity|].
  apply (H (MBool true) [MBool false; MBool true] 3%nat false 0%nat);
    [reflexivity|reflexivity|discriminate|by right].
Defined.

Lemma streams_then_Reset_witness :
  0 < tick
  ∧ checkFile (folder p17) enabled_leaving = true
  ∧ hooks_ok enabled_leaving = true
  ∧ ∃ w1 r w2,
      range [StartSetValues 0; StartValues 4; StartSetValues 0] (start p17)
        enabled_leaving = Done tt w1
      ∧ hooks_ok w1 = true
      ∧ Reset tick p17 w1 = Done r w2
      ∧ resetters w2 = [].
Proof.
  split; [reflexivity|]. split; [vm_compute; reflexivity|].
  split; [vm_compute; reflexivity|].
  destruct (streams_then_Reset tick ltac:(reflexivity) p17
              [StartSetValues 0; StartValues 4; StartSetValues 0] enabled_leaving)
    as (w1 & r & w2 & tl & E & O & _ & R & Z & _);
    [vm_compute; reflexivity|vm_compute; reflexivity|].
  exists w1, r, w2. split; [exact E|]. split; [exact O|]. split; [exact R|exact Z].
Defined.

Lemma Simple_Enable_outcome_witness :
  0 < tick
  ∧ answer (Simple_Enable tick p17 disabled) = Some None
  ∧ ∃ r w',
      Simple_Enable tick p17 disabled = Done r w'
      ∧ now w' < now disabled + Simple.timelimit + tick
      ∧ match r with
        | None => checkFile (folder p17) w' = true
        | Some e =>
            (∃ en, e = PathError (export p17) en ∧ now w' = now disabled)
            ∨ (e = Timeout (folder p17) ∧ now disabled + Simple.timelimit ≤ now w')
        end.
Proof.
  split; [reflexivity|]. split; [vm_compute; reflexivity|].
  pose proof (Simple_Enable_outcome tick ltac:(reflexivity) p17 disabled) as H.
  destruct (Simple_Enable tick p17 disabled) as [r w'| |]; [|destruct H|destruct H].
  destruct H as (_ & H2 & _ & H4). exists r, w'. split; [reflexivity|].
  split; [exact H2|exact H4].
Defined.

Lemma Simple_Reset_outcome_witness :
  0 < tick
  ∧ answer (Simple_Reset tick p17 enabled_leaving) = Some None
  ∧ ∃ r w',
      Simple_Reset tick p17 enabled_leaving = Done r w'
      ∧ now w' < now enabled_leaving + Simple.timelimit + tick
      ∧ resetters w' = resetters enabled_leaving.
Proof.
  split; [reflexivity|]. split; [vm_compute; reflexivity|].
  pose proof (Simple_Reset_outcome tick ltac:(reflexivity) p17 enabled_leaving) as H.
  destruct (Simple_Reset tick p17 enabled_leaving) as [r w'| |]; [|destruct H|destruct H].
  destruct H as (_ & H2 & H3 & _). exists r, w'. split; [reflexivity|].
  split; [exact H2|exact H3].
Defined.
